(** * xenolog/slog, package mlog: the syslog proxy and the forwarding handler

    A shallow embedding of [v0/syslog_handler.go].  Go values are modelled
    as follows:
    - [int], [slog.Level], [logSyslog.Priority], [time.Duration] are [Z];
    - [[]byte] is [list byte], [string] is [string] (a [scanner.Text()] line
      is kept as [list byte], the conversion [[]byte(line)] being the identity);
    - a method that mutates its receiver takes the state and returns the new
      state next to its result;
    - a call either returns, panics, or blocks on the mutex: see [outcome].

    The Go standard library pieces the file relies on ([bytes.Buffer],
    [bufio.Scanner] with its default [ScanLines] split function, [net.Conn],
    [sync.Mutex]) are modelled in the modules [bytes], [bufio], [net] and
    [sync]; what the package takes from its environment and from files other
    than [syslog_handler.go] is gathered in the class [Externals], so that
    the statements hold for every URL parser, every dialler and every list
    of levels.  The module [goURL] models [url.Parse] for the examples.
    The methods [Copy], [WithAttrs] and [WithGroup] of the handler make
    and hand out pointers: they are modelled over a heap of handler
    objects. *)

From Stdlib Require Import ZArith List Lia Bool String Ascii Sorted.
From Stdlib Require Import Strings.Byte.
Import ListNotations.

Local Open Scope string_scope.
Local Open Scope Z_scope.
Local Open Scope list_scope.

Set Implicit Arguments.
Local Set Warnings "-register-all".

(** ** Go builtins on slices *)

(** [len(b)] *)
Definition len {A : Type} (l : list A) : Z := Z.of_nat (List.length l).

(** [b[lo:hi]] for [0 <= lo <= hi <= len(b)] *)
Definition slice {A : Type} (l : list A) (lo hi : Z) : list A :=
  firstn (Z.to_nat (hi - lo)) (skipn (Z.to_nat lo) l).

(** [b[lo:]] *)
Definition slice_from {A : Type} (l : list A) (lo : Z) : list A :=
  skipn (Z.to_nat lo) l.

(** [b[:hi]] *)
Definition slice_to {A : Type} (l : list A) (hi : Z) : list A :=
  firstn (Z.to_nat hi) l.

(** The bytes of a string literal. *)
Definition B (s : string) : list byte := list_byte_of_string s.

(** ['\n'] and ['\r'] *)
Definition NL : byte := x0a.
Definition CR : byte := x0d.

(** [b[len(b)-1]]: [None] stands for the index-out-of-range panic. *)
Definition last_byte (l : list byte) : option byte :=
  match rev l with
  | [] => None
  | c :: _ => Some c
  end.

(** ** Errors *)

(** The package's error values; they are declared in another file of the
    package and only their identity matters here. *)
Inductive sentinel : Set :=
| ErrSyslogURLparse
| ErrSyslogConnection
| ErrSyslogWrite
| ErrSyslogProcessHandleResult
| ErrSyslogHandle.

Definition sentinel_eqb (a b : sentinel) : bool :=
  match a, b with
  | ErrSyslogURLparse, ErrSyslogURLparse
  | ErrSyslogConnection, ErrSyslogConnection
  | ErrSyslogWrite, ErrSyslogWrite
  | ErrSyslogProcessHandleResult, ErrSyslogProcessHandleResult
  | ErrSyslogHandle, ErrSyslogHandle => true
  | _, _ => false
  end.

(** An argument of [fmt.Errorf]: [%w] takes an error, [%s] a string and
    [%v] (of [allowedProto]) a list of strings. *)
Inductive arg (E : Type) : Type :=
| ArgW (e : E)
| ArgS (s : string)
| ArgV (l : list string).
Arguments ArgW {E} e.
Arguments ArgS {E} s.
Arguments ArgV {E} l.

(** A Go [error] value: one of the package's errors, an error made by
    somebody else (the standard library, the caller's line function), or
    the result of [fmt.Errorf]. *)
Inductive error : Type :=
| Sentinel (s : sentinel)
| Foreign (msg : string)
| Errorf (format : string) (args : list (arg error)).

(** [errors.Is(e, target)] for a target among the package's errors: the
    error itself or one it wraps with [%w]. *)
Fixpoint errors_Is (e : error) (target : sentinel) : bool :=
  match e with
  | Sentinel s => sentinel_eqb s target
  | Foreign _ => false
  | Errorf _ args =>
      (fix any (l : list (arg error)) : bool :=
         match l with
         | [] => false
         | ArgW e' :: l' => errors_Is e' target || any l'
         | _ :: l' => any l'
         end) args
  end.

(** ** Outcomes of a call *)

Inductive outcome (A : Type) : Type :=
| Ret (a : A)              (* the call returns [a] *)
| Panic (msg : string)     (* the call panics *)
| Block                    (* the call waits for ever on a locked mutex *)
| OutOfFuel.               (* the model's loop bound was too small: never
                              the case, see [Scan_total], [ProcessLines_total] *)
Arguments Ret {A} a.
Arguments Panic {A} msg.
Arguments Block {A}.
Arguments OutOfFuel {A}.

(** ** sync.Mutex *)
Module sync.

(** [acquired] counts the [Lock] calls that went through. *)
Record Mutex : Type := mkMutex {
  locked : bool;
  acquired : nat
}.

Definition Lock (m : Mutex) : option Mutex :=
  if locked m then None
  else Some (mkMutex true (S (acquired m))).

(** Unlocking an unlocked mutex is a fatal error in Go. *)
Definition Unlock (m : Mutex) : option Mutex :=
  if locked m then Some (mkMutex false (acquired m))
  else None.

End sync.

(** ** bytes.Buffer *)
Module bytes.

(** The unread part of the buffer, [b.buf[b.off:]]. *)
Definition Buffer : Type := list byte.

(** [b.Write(p)] *)
Definition Write (b : Buffer) (p : list byte) : Buffer := b ++ p.

(** [bytes.IndexByte(b, c)]: the index of the first [c], or [-1]. *)
Fixpoint IndexByte (b : list byte) (c : byte) : Z :=
  match b with
  | [] => -1
  | x :: b' =>
      if Byte.eqb x c then 0
      else let i := IndexByte b' c in
           if i <? 0 then -1 else i + 1
  end.

(** [b.Read(p)] with [n = len(p)]: the bytes copied into [p], whether
    [io.EOF] is returned, and the buffer afterwards. *)
Definition Read (b : Buffer) (n : Z) : list byte * bool * Buffer :=
  match b with
  | [] => ([], negb (n =? 0), [])
  | _ => (slice_to b n, false, slice_from b n)
  end.

End bytes.

(** ** bufio.Scanner over a bytes.Buffer, split function ScanLines

    [ScanLines] returns no error and no token without advancing, so that
    the fields [done] and [empties] of the scanner never change: they are
    left out. *)
Module bufio.

Definition MaxScanTokenSize : Z := 64 * 1024.
Definition startBufSize : Z := 4096.
Definition maxInt : Z := 2 ^ 63 - 1.

Inductive scan_error : Set :=
| EOF                  (* io.EOF *)
| ErrTooLong
| ErrNegativeAdvance
| ErrAdvanceTooFar
| ErrNoProgress.       (* io.ErrNoProgress *)

(** The scanner's internal buffer [s.buf] is represented by its length
    [cap] and by the window [s.buf[s.start:s.end]] of bytes read and not
    yet handed out, so that [s.end = start + len window]; [Scan] never
    looks at the bytes of [s.buf] outside this window. *)
Record Scanner : Type := mkScanner {
  maxTokenSize : Z;
  token : list byte;
  cap : Z;
  start : Z;
  window : list byte;
  err : option scan_error
}.

Definition s_end (s : Scanner) : Z := start s + len (window s).

(** [bufio.NewScanner(r)] *)
Definition NewScanner : Scanner :=
  mkScanner MaxScanTokenSize [] 0 0 [] None.

(** [dropCR] *)
Definition dropCR (data : list byte) : list byte :=
  match last_byte data with
  | Some c => if Byte.eqb c CR then slice_to data (len data - 1) else data
  | None => data
  end.

(** [ScanLines(data, atEOF)]: the advance and the token ([None] is the
    nil token); its error is always nil. *)
Definition ScanLines (data : list byte) (atEOF : bool) : Z * option (list byte) :=
  if atEOF && (len data =? 0) then (0, None)
  else
    let i := bytes.IndexByte data NL in
    if 0 <=? i then (i + 1, Some (dropCR (slice_to data i)))
    else if atEOF then (len data, Some (dropCR data))
    else (0, None).

(** [s.setErr(e)] *)
Definition setErr (s : Scanner) (e : scan_error) : Scanner :=
  match err s with
  | None | Some EOF =>
      mkScanner (maxTokenSize s) (token s) (cap s) (start s) (window s) (Some e)
  | Some _ => s
  end.

(** [s.advance(n)] *)
Definition advance (s : Scanner) (n : Z) : bool * Scanner :=
  if n <? 0 then (false, setErr s ErrNegativeAdvance)
  else if len (window s) <? n then (false, setErr s ErrAdvanceTooFar)
  else (true, mkScanner (maxTokenSize s) (token s) (cap s) (start s + n)
                        (slice_from (window s) n) (err s)).

Definition set_token (s : Scanner) (t : list byte) : Scanner :=
  mkScanner (maxTokenSize s) t (cap s) (start s) (window s) (err s).

(** One turn of the loop of [Scan]: it returns, or goes round again. *)
Inductive turn : Type :=
| Done (found : bool) (s : Scanner) (r : bytes.Buffer)
| Again (s : Scanner) (r : bytes.Buffer).

(** "First, shift data to beginning of buffer if there's lots of empty
    space or space is needed." *)
Definition shift (s : Scanner) : Scanner :=
  if (0 <? start s) && ((s_end s =? cap s) || (cap s / 2 <? start s))
  then mkScanner (maxTokenSize s) (token s) (cap s) 0 (window s) (err s)
  else s.

(** The new buffer of a full scanner: twice the size, within
    [maxTokenSize]. *)
Definition grow (s : Scanner) : Scanner :=
  let newSize := cap s * 2 in
  let newSize := if newSize =? 0 then startBufSize else newSize in
  let newSize := Z.min newSize (maxTokenSize s) in
  mkScanner (maxTokenSize s) (token s) newSize 0 (window s) (err s).

(** [s.r.Read(s.buf[s.end:len(s.buf)])] and what the loop around it makes
    of the answer; a [bytes.Buffer] asked for zero bytes answers [0, nil]
    each time, which the loop gives up on after a hundred tries. *)
Definition read (s : Scanner) (r : bytes.Buffer) : Scanner * bytes.Buffer :=
  let '(p, eof, r') := bytes.Read r (cap s - s_end s) in
  let s' := mkScanner (maxTokenSize s) (token s) (cap s) (start s)
                      (window s ++ p) (err s) in
  if eof then (setErr s' EOF, r')
  else if 0 <? len p then (s', r')
  else (setErr s' ErrNoProgress, r').

(** The part of the loop body after the split function has been tried:
    stop at an error, else make room and read. *)
Definition fill (s : Scanner) (r : bytes.Buffer) : turn :=
  match err s with
  | Some _ =>
      Done false (mkScanner (maxTokenSize s) (token s) (cap s) 0 [] (err s)) r
  | None =>
      let s := shift s in
      if s_end s =? cap s
      then
        if (maxTokenSize s <=? cap s) || (maxInt / 2 <? cap s)
        then Done false (setErr s ErrTooLong) r
        else let '(s, r) := read (grow s) r in Again s r
      else let '(s, r) := read s r in Again s r
  end.

(** [s.err != nil] *)
Definition failed (s : Scanner) : bool :=
  match err s with
  | Some _ => true
  | None => false
  end.

Definition scan_turn (s : Scanner) (r : bytes.Buffer) : turn :=
  if (0 <? len (window s)) || failed s
  then
    let '(adv, tok) := ScanLines (window s) (failed s) in
    let '(ok, s1) := advance s adv in
    if negb ok then Done false s1 r
    else
      match tok with
      | Some t => Done true (set_token s1 t) r
      | None => fill (set_token s1 []) r
      end
  else fill s r.

Fixpoint Scan_loop (fuel : nat) (s : Scanner) (r : bytes.Buffer)
  : option (bool * Scanner * bytes.Buffer) :=
  match fuel with
  | O => None
  | S fuel' =>
      match scan_turn s r with
      | Done found s' r' => Some (found, s', r')
      | Again s' r' => Scan_loop fuel' s' r'
      end
  end.

(** [s.Scan()]; at most [len r + 2] turns are ever taken. *)
Definition Scan (s : Scanner) (r : bytes.Buffer) : option (bool * Scanner * bytes.Buffer) :=
  Scan_loop (S (S (List.length r))) s r.

(** [s.Err()] *)
Definition Err (s : Scanner) : option scan_error :=
  match err s with
  | Some EOF => None
  | e => e
  end.

End bufio.

(** ** net.Conn *)
Module net.

(** A [Write] that fails: [n, err] with [err != nil].  [written] is [n],
    the number of bytes of the payload that went out before the error
    [cause]; an [io.Writer] may fail after a part of the payload. *)
Record Fault : Type := mkFault {
  written : nat;
  cause : error
}.

(** A connection as the proxy sees it: [sent] logs, oldest first, what
    the [Write] calls put on the wire: the payload of a call that
    succeeded, and of a call that failed the part that went out before
    the error, if any.  [faults] scripts the outcome of the coming
    [Write] calls ([Some ft]: the call fails as [ft] says; when the
    script is used up every call succeeds), and [deadline_err] is what
    [SetWriteDeadline] answers.  Time is not modelled: a deadline that
    expires shows as a write that fails. *)
Record Conn : Type := mkConn {
  network : string;
  address : string;
  closed : bool;
  sent : list (list byte);
  deadline_err : option error;
  faults : list (option Fault)
}.

Definition errClosed : error := Foreign "use of closed network connection".

(** [c.Close()] *)
Definition Close (c : Conn) : Conn :=
  mkConn (network c) (address c) true (sent c) (deadline_err c) (faults c).

(** [c.SetWriteDeadline(t)] *)
Definition SetWriteDeadline (c : Conn) : option error :=
  if closed c then Some errClosed else deadline_err c.

(** What a write of [p] that fails after [n] bytes leaves on the wire. *)
Definition partial (n : nat) (p : list byte) : list (list byte) :=
  match firstn n p with
  | [] => []
  | q => [q]
  end.

(** [c.Write(p)]; the caller sees the error, and the number of bytes
    written if it looks at it. *)
Definition Write (c : Conn) (p : list byte) : Conn * option error :=
  if closed c then (c, Some errClosed)
  else
    match faults c with
    | Some ft :: fs =>
        (mkConn (network c) (address c) (closed c) (sent c ++ partial (written ft) p)
                (deadline_err c) fs,
         Some (cause ft))
    | None :: fs =>
        (mkConn (network c) (address c) (closed c) (sent c ++ [p]) (deadline_err c) fs, None)
    | [] =>
        (mkConn (network c) (address c) (closed c) (sent c ++ [p]) (deadline_err c) [], None)
    end.

End net.

(** ** net/url *)
Module netURL.

(** The fields of [url.URL] that [Connect] or the parser's model use. *)
Record URL : Type := mkURL {
  Scheme : string;
  Opaque : string;
  User : option string;
  Host : string;
  Path : string;
  RawQuery : string;
  Fragment : string
}.

End netURL.

(** ** log/syslog priorities *)
Module logSyslog.

Definition LOG_EMERG : Z := 0.
Definition LOG_INFO : Z := 6.
Definition LOG_DEBUG : Z := 7.
Definition LOG_KERN : Z := Z.shiftl 0 3.
Definition LOG_USER : Z := Z.shiftl 1 3.
Definition LOG_LOCAL7 : Z := Z.shiftl 23 3.

End logSyslog.

(** ** log/slog *)
Module slog.

Definition Level : Type := Z.

Record Record_ : Type := mkRecord {
  RecLevel : Level;
  Message : string
}.

(** The part of the interface [slog.Handler] that the forwarding handler
    calls.  [H] is the state of the downstream handler; [Handle] answers
    the new state, the bytes the handler writes into its [io.Writer], and
    its error. *)
Class Handler (H : Type) : Type := {
  Enabled : H -> Level -> bool;
  Handle : H -> Record_ -> H * list byte * option error
}.

End slog.

(** ** What the file takes from outside *)

Class Externals : Type := {
  (* declared in other files of the package *)
  allowedLevels : list slog.Level;
  defaultDialTimeout : Z;
  InitialIOBufSize : Z;
  InitialLineProcessBufSize : Z;
  TrimTimestamp : list byte -> list byte * option error;
  (* the standard library and the process *)
  url_Parse : string -> netURL.URL + error;
  (* [net.DialTimeout(network, address, timeout)] at the moment [now] *)
  net_DialTimeout : nat -> string -> string -> Z -> net.Conn + error;
  os_Args : list string
}.

(** ** The package *)

Definition severityMask : Z := 0x07.
Definition facilityMask : Z := 0xf8.

Definition allowedProto : list string := ["tcp"; "udp"; "unix"].

(** [slices.Index(s, v)] *)
Fixpoint slices_Index (s : list string) (v : string) : Z :=
  match s with
  | [] => -1
  | x :: s' =>
      if String.eqb x v then 0
      else let i := slices_Index s' v in
           if i <? 0 then -1 else i + 1
  end.

(** The struct [SyslogProxy].  [buf] is the content of the [*bytes.Buffer],
    the object that [Writer()] hands out; [lineProcessBuf] and [conn] are as
    in the source, [conn = None] being the nil connection.  The field
    [stderrLogger] is written once by [NewSyslogProxy] and never read in
    this file: it is left out. *)
Record SyslogProxy : Type := mkSyslogProxy {
  buf : bytes.Buffer;
  lineProcessBuf : list byte;
  priority : Z;
  tag : string;
  url : string;
  conn : option net.Conn;
  useLocalTZ : bool;
  timeout : Z;
  mu : sync.Mutex
}.

Definition set_buf (s : SyslogProxy) (b : bytes.Buffer) : SyslogProxy :=
  mkSyslogProxy b (lineProcessBuf s) (priority s) (tag s) (url s) (conn s)
                (useLocalTZ s) (timeout s) (mu s).

Definition set_url (s : SyslogProxy) (u : string) : SyslogProxy :=
  mkSyslogProxy (buf s) (lineProcessBuf s) (priority s) (tag s) u (conn s)
                (useLocalTZ s) (timeout s) (mu s).

Definition set_conn (s : SyslogProxy) (c : option net.Conn) : SyslogProxy :=
  mkSyslogProxy (buf s) (lineProcessBuf s) (priority s) (tag s) (url s) c
                (useLocalTZ s) (timeout s) (mu s).

Definition set_timeout (s : SyslogProxy) (t : Z) : SyslogProxy :=
  mkSyslogProxy (buf s) (lineProcessBuf s) (priority s) (tag s) (url s) (conn s)
                (useLocalTZ s) t (mu s).

Definition set_mu (s : SyslogProxy) (m : sync.Mutex) : SyslogProxy :=
  mkSyslogProxy (buf s) (lineProcessBuf s) (priority s) (tag s) (url s) (conn s)
                (useLocalTZ s) (timeout s) m.

(** [s.Writer()]: writing [p] to the writer appends to the buffer. *)
Definition Writer_Write (s : SyslogProxy) (p : list byte) : SyslogProxy :=
  set_buf s (bytes.Write (buf s) p).

(** [s.Lock()], [s.Unlock()] *)
Definition Lock (s : SyslogProxy) : option SyslogProxy :=
  option_map (set_mu s) (sync.Lock (mu s)).

Definition Unlock (s : SyslogProxy) : option SyslogProxy :=
  option_map (set_mu s) (sync.Unlock (mu s)).

(** [s.IsConnected()] *)
Definition IsConnected (s : SyslogProxy) : bool :=
  match conn s with
  | Some _ => true
  | None => false
  end.

(** [s.Disconnect()]: the proxy afterwards, and the connection it closed. *)
Definition Disconnect (s : SyslogProxy) : SyslogProxy * option net.Conn :=
  match conn s with
  | Some c => (set_conn s None, Some (net.Close c))
  | None => (s, None)
  end.

Definition errNotConnected : error :=
  Errorf "%w: not connected" [ArgW (Sentinel ErrSyslogConnection)].

Definition wrap (s : sentinel) (e : error) : error :=
  Errorf "%w: %w" [ArgW (Sentinel s); ArgW e].

Definition unlockPanic : string := "sync: unlock of unlocked mutex".

(** The errors of [bufio.Scanner] and of indexing, as Go values. *)
Definition scan_error_value (e : bufio.scan_error) : error :=
  match e with
  | bufio.EOF => Foreign "EOF"
  | bufio.ErrTooLong => Foreign "bufio.Scanner: token too long"
  | bufio.ErrNegativeAdvance => Foreign "bufio.Scanner: SplitFunc returns negative advance count"
  | bufio.ErrAdvanceTooFar => Foreign "bufio.Scanner: SplitFunc returns advance count beyond input"
  | bufio.ErrNoProgress => Foreign "multiple Read calls return no data or error"
  end.

Definition indexPanic : string := "runtime error: index out of range [-1]".
Definition nilConnPanic : string := "runtime error: invalid memory address or nil pointer dereference".

(** The type of [processFunc] and of [LineProcessFunc]. *)
Definition lineFunc : Type := list byte -> list byte * option error.

(** What the body of the loop of [ProcessLines] comes to: the loop goes
    on, or the function is left with a result. *)
Inductive flow : Type :=
| Continue (c : net.Conn)
| Break (res : outcome (option error)) (c : net.Conn).

(** The body of the loop of [ProcessLines], for the scanned [line]. *)
Definition process_line (processFunc : lineFunc) (line : list byte) (c : net.Conn) : flow :=
  match line with
  | [] => Continue c
  | _ :: _ =>
      let '(line, err) := processFunc line in
      match err with
      | Some e => Break (Ret (Some e)) c
      | None =>
          let '(c, err) := net.Write c line in
          match err with
          | Some e => Break (Ret (Some (wrap ErrSyslogWrite e))) c
          | None =>
              match last_byte line with
              | None => Break (Panic indexPanic) c
              | Some x =>
                  if negb (Byte.eqb x NL)
                  then
                    let '(c, err) := net.Write c [NL] in
                    match err with
                    | Some e => Break (Ret (Some (wrap ErrSyslogWrite e))) c
                    | None => Continue c
                    end
                  else Continue c
              end
          end
      end
  end.

(** The loop [for scanner.Scan() { ... }] of [ProcessLines] and the check
    of [scanner.Err()] after it.  Every turn that finds a token takes at
    least one byte out of the scanner's window or of the buffer, so
    [fuel] bounds the number of turns. *)
Fixpoint ProcessLines_loop (fuel : nat) (processFunc : lineFunc)
    (scanner : bufio.Scanner) (b : bytes.Buffer) (c : net.Conn)
  : outcome (option error) * bytes.Buffer * net.Conn :=
  match fuel with
  | O => (OutOfFuel, b, c)
  | S fuel' =>
      match bufio.Scan scanner b with
      | None => (OutOfFuel, b, c)
      | Some (false, scanner', b') =>
          match bufio.Err scanner' with
          | Some e => (Ret (Some (wrap ErrSyslogProcessHandleResult (scan_error_value e))), b', c)
          | None => (Ret None, b', c)
          end
      | Some (true, scanner', b') =>
          match process_line processFunc (bufio.token scanner') c with
          | Continue c' => ProcessLines_loop fuel' processFunc scanner' b' c'
          | Break res c' => (res, b', c')
          end
      end
  end.

(** [s.ProcessLines(processFunc)] *)
Definition ProcessLines (processFunc : lineFunc) (s : SyslogProxy)
  : outcome (option error) * SyslogProxy :=
  if negb (IsConnected s) then (Ret (Some errNotConnected), s)
  else
    match conn s with
    | None => (Panic nilConnPanic, s)
    | Some c =>
        match net.SetWriteDeadline c with
        | Some e => (Ret (Some (wrap ErrSyslogConnection e)), s)
        | None =>
            let '(res, b', c') :=
              ProcessLines_loop (S (List.length (buf s))) processFunc
                                bufio.NewScanner (buf s) c in
            (res, set_conn (set_buf s b') (Some c'))
        end
    end.

(** [SyslogProxyOptions] *)
Record SyslogProxyOptions : Type := mkSyslogProxyOptions {
  UseLocalTZ : bool;
  Priority : Z;
  Tag : string;
  IOBufSize : Z;
  LineProcessBufSize : Z
}.

(** [SyslogHandlerOptions]; [None] is the nil function. *)
Record SyslogHandlerOptions : Type := mkSyslogHandlerOptions {
  LineProcessFunc : option lineFunc
}.

(** The struct [SyslogHandler].  Its fields [syslogPx] and [handler] are
    pointers: the objects they point to, the proxy and the downstream
    handler, live in the [World] the methods run in. *)
Record SyslogHandler : Type := mkSyslogHandler {
  level : slog.Level;
  lineProcessFunc : lineFunc
}.

(** The objects a [SyslogHandler] points to; [handled] counts the calls of
    the downstream handler's [Handle]. *)
Record World (H : Type) : Type := mkWorld {
  proxy : SyslogProxy;
  downstream : H;
  handled : nat
}.

Section Package.

Context {Ext : Externals}.

(** [s.Connect(url, timeout)], called at the moment [now]. *)
Definition Connect (url0 : string) (timeout0 : Z) (now : nat) (s : SyslogProxy)
  : outcome (option error) * SyslogProxy :=
  let url0 := if String.eqb url0 "" then url s else url0 in
  match url_Parse url0 with
  | inr err =>
      (Ret (Some (Errorf "%w: URL `%s` is wrong: %w"
                         [ArgW (Sentinel ErrSyslogURLparse); ArgS url0; ArgW err])), s)
  | inl u =>
      if slices_Index allowedProto (netURL.Scheme u) =? -1
      then
        (Ret (Some (Errorf "%w: URL `%s` is wrong: unsupported proto '%s', allowed only %v"
                           [ArgW (Sentinel ErrSyslogURLparse); ArgS url0;
                            ArgS (netURL.Scheme u); ArgV allowedProto])), s)
      else
        let proto := netURL.Scheme u in
        let addr := if String.eqb proto "unix" then netURL.Path u else netURL.Host u in
        let s := set_url s (String.append proto (String.append "://" addr)) in
        let timeout0 := if timeout0 =? 0 then defaultDialTimeout else timeout0 in
        match net_DialTimeout now proto addr timeout0 with
        | inr err => (Ret (Some (wrap ErrSyslogConnection err)), s)
        | inl c =>
            match Lock s with
            | None => (Block, s)
            | Some s =>
                let s := fst (Disconnect s) in
                let s := set_conn s (Some c) in
                let s := set_timeout s timeout0 in
                match Unlock s with
                | Some s => (Ret None, s)
                | None => (Panic unlockPanic, s)
                end
            end
        end
  end.

(** [NewSyslogProxy(opts)]; [None] is the nil pointer.  The source writes
    the defaults into [*opts]; the model keeps the values it reads back. *)
Definition NewSyslogProxy (opts : option SyslogProxyOptions) : outcome SyslogProxy :=
  let opts := match opts with
              | Some o => o
              | None => mkSyslogProxyOptions false 0 "" 0 0
              end in
  let ioBufSize := if IOBufSize opts =? 0 then InitialIOBufSize else IOBufSize opts in
  let lineProcessBufSize :=
    if LineProcessBufSize opts =? 0 then InitialLineProcessBufSize
    else LineProcessBufSize opts in
  let prio :=
    if (Priority opts <? 0)
       || (Z.lor logSyslog.LOG_LOCAL7 logSyslog.LOG_DEBUG <? Priority opts)
    then Z.lor logSyslog.LOG_INFO logSyslog.LOG_USER
    else Priority opts in
  match (if String.eqb (Tag opts) "" then nth_error os_Args 0 else Some (Tag opts)) with
  | None => Panic "runtime error: index out of range [0] with length 0"
  | Some tag0 =>
      if ioBufSize <? 0 then Panic "runtime error: makeslice: cap out of range"
      else if lineProcessBufSize <? 0 then Panic "runtime error: makeslice: len out of range"
      else
        Ret (mkSyslogProxy [] (repeat x00 (Z.to_nat lineProcessBufSize))
                           prio tag0 "" None (UseLocalTZ opts) 0
                           (sync.mkMutex false 0))
  end.

Section Handler.

Context {H : Type} {DH : slog.Handler H}.

(** [h.Enabled(ctx, level)], called in the world [w]. *)
Definition Enabled (w : World H) (h : SyslogHandler) (lvl : slog.Level) : bool :=
  lvl >=? level h.

(** The loop of [NewSyslogHandler] over [allowedLevels]: [lvl0] is
    [sh.level] before the loop. *)
Fixpoint probe (d : H) (levels : list slog.Level) (lvl0 : slog.Level) : slog.Level :=
  match levels with
  | [] => lvl0
  | logLevel :: levels' =>
      if slog.Enabled d logLevel then logLevel
      else probe d levels' lvl0
  end.

(** The default line function of [NewSyslogHandler]. *)
Definition defaultLineProcessFunc : lineFunc :=
  fun line => (fst (TrimTimestamp line), None).

(** [NewSyslogHandler(syslogPx, h, opts)], where [syslogPx] and [h]
    point to the proxy and the downstream handler of [w]. *)
Definition NewSyslogHandler (w : World H) (opts : option SyslogHandlerOptions)
  : SyslogHandler :=
  let f := match opts with
           | Some (mkSyslogHandlerOptions (Some f)) => f
           | _ => defaultLineProcessFunc
           end in
  mkSyslogHandler (probe (downstream w) allowedLevels 0) f.

(** [h.Handle(ctx, r)], called in the world [w].  The downstream
    handler writes into [syslogPx.Writer()]; the deferred [Unlock]
    runs on every way out, a panic included. *)
Definition Handle (h : SyslogHandler) (r : slog.Record_) (w : World H)
  : outcome (option error) * World H :=
  if negb (IsConnected (proxy w)) then (Ret (Some errNotConnected), w)
  else
    match Lock (proxy w) with
    | None => (Block, w)
    | Some px =>
        let '(d', out, err) := slog.Handle (downstream w) r in
        let px := Writer_Write px out in
        let '(res, px) :=
          match err with
          | Some e => (Ret (Some (wrap ErrSyslogHandle e)), px)
          | None => ProcessLines (lineProcessFunc h) px
          end in
        match Unlock px with
        | Some px => (res, mkWorld px d' (S (handled w)))
        | None => (Panic unlockPanic, mkWorld px d' (S (handled w)))
        end
    end.

End Handler.

End Package.

(** ** A model of net/url.Parse

    [Connect] is stated over any parser ([url_Parse] of [Externals]).  To
    run it on concrete destinations, this module follows [url.Parse] of the
    Go standard library (go 1.21) on the fields of [netURL.URL]; [RawPath],
    [ForceQuery] and [OmitHost] are not kept. *)
Module goURL.

Definition code (c : byte) : N := Byte.to_N c.

Definition between (lo hi c : byte) : bool :=
  (code lo <=? code c)%N && (code c <=? code hi)%N.

Definition isByte (c d : byte) : bool := Byte.eqb c d.

Definition isAlpha (c : byte) : bool := between "a" "z" c || between "A" "Z" c.
Definition isDigit (c : byte) : bool := between "0" "9" c.

(** [strings.HasPrefix] *)
Fixpoint HasPrefix (s p : list byte) : bool :=
  match p, s with
  | [], _ => true
  | c :: p', d :: s' => Byte.eqb c d && HasPrefix s' p'
  | _ :: _, [] => false
  end.

(** [strings.Index(s, sep)] for a non-empty [sep]: index of the first
    occurrence, as a number of bytes to skip; [None] for [-1]. *)
Fixpoint Index (s sep : list byte) : option nat :=
  if HasPrefix s sep then Some O
  else match s with
       | [] => None
       | _ :: s' => option_map S (Index s' sep)
       end.

(** [strings.LastIndex(s, sep)] for a one byte [sep]. *)
Fixpoint LastIndexByte (s : list byte) (c : byte) : option nat :=
  match s with
  | [] => None
  | d :: s' =>
      match LastIndexByte s' c with
      | Some i => Some (S i)
      | None => if Byte.eqb d c then Some O else None
      end
  end.

(** [strings.Cut(s, sep)] for a one byte [sep] *)
Definition Cut (s : list byte) (c : byte) : list byte * list byte * bool :=
  match Index s [c] with
  | Some i => (firstn i s, skipn (S i) s, true)
  | None => (s, [], false)
  end.

(** [strings.Count(s, sep)] for a one byte [sep] *)
Definition Count (s : list byte) (c : byte) : nat :=
  List.length (filter (Byte.eqb c) s).

Definition toLower (c : byte) : byte :=
  if between "A" "Z" c
  then match Byte.of_N (code c + 32) with Some d => d | None => c end
  else c.

(** [stringContainsCTLByte] *)
Definition stringContainsCTLByte (s : list byte) : bool :=
  existsb (fun c => (code c <? 32)%N || (code c =? 127)%N) s.

(** [getScheme]: the scheme and the rest, or the error. *)
Fixpoint getScheme_from (i : nat) (seen rest rawURL : list byte)
  : (list byte * list byte) + error :=
  match rest with
  | [] => inl ([], rawURL)
  | c :: rest' =>
      if isAlpha c then getScheme_from (S i) (seen ++ [c]) rest' rawURL
      else if isDigit c || isByte c "+" || isByte c "-" || isByte c "."
      then match i with
           | O => inl ([], rawURL)
           | S _ => getScheme_from (S i) (seen ++ [c]) rest' rawURL
           end
      else if isByte c ":"
      then match i with
           | O => inr (Foreign "missing protocol scheme")
           | S _ => inl (seen, rest')
           end
      else inl ([], rawURL)
  end.

Definition getScheme (rawURL : list byte) : (list byte * list byte) + error :=
  getScheme_from O [] rawURL rawURL.

Inductive encoding : Set :=
| encodePath | encodeHost | encodeZone | encodeUserPassword | encodeFragment.

Definition ishex (c : byte) : bool :=
  isDigit c || between "a" "f" c || between "A" "F" c.

Definition unhex (c : byte) : N :=
  if isDigit c then code c - code "0"
  else if between "a" "f" c then code c - code "a" + 10
  else if between "A" "F" c then code c - code "A" + 10
  else 0.

(** [shouldEscape(c, encodeHost)] *)
Definition shouldEscapeHost (c : byte) : bool :=
  if isAlpha c || isDigit c then false
  else if existsb (isByte c)
            ["!"; "$"; "&"; x27; "("; ")"; "*"; "+"; ","; ";"; "="; ":"; "["; "]";
             "<"; ">"; x22]%byte
  then false
  else if existsb (isByte c) ["-"; "_"; "."; "~"]%byte then false
  else true.

Definition byte_of_hex (h l : byte) : byte :=
  match Byte.of_N (unhex h * 16 + unhex l) with
  | Some b => b
  | None => x00
  end.

(** [unescape(s, mode)]: the two passes of the source are run together,
    the first error met from the left is the one returned. *)
Fixpoint unescape (s : list byte) (mode : encoding) : list byte + error :=
  match s with
  | [] => inl []
  | c :: s' =>
      if isByte c "%"
      then
        match s' with
        | h :: l :: s'' =>
            if negb (ishex h && ishex l) then inr (Foreign "invalid URL escape")
            else if (match mode with encodeHost => true | _ => false end)
                    && (unhex h <? 8)%N && negb (isByte h "2" && isByte l "5")
            then inr (Foreign "invalid URL escape")
            else if (match mode with encodeZone => true | _ => false end)
                    && negb (isByte h "2" && isByte l "5")
                    && negb (isByte (byte_of_hex h l) " ")
                    && shouldEscapeHost (byte_of_hex h l)
            then inr (Foreign "invalid URL escape")
            else
              match unescape s'' mode with
              | inl t => inl (byte_of_hex h l :: t)
              | inr e => inr e
              end
        | _ => inr (Foreign "invalid URL escape")
        end
      else if (match mode with encodeHost | encodeZone => true | _ => false end)
              && (code c <? 128)%N && shouldEscapeHost c
      then inr (Foreign "invalid character in host name")
      else
        match unescape s' mode with
        | inl t => inl (c :: t)
        | inr e => inr e
        end
  end.

(** [validOptionalPort] *)
Definition validOptionalPort (port : list byte) : bool :=
  match port with
  | [] => true
  | c :: ds => isByte c ":" && forallb isDigit ds
  end.

(** [validUserinfo] *)
Definition validUserinfo (s : list byte) : bool :=
  forallb (fun c =>
             isAlpha c || isDigit c
             || existsb (isByte c)
                  ["-"; "."; "_"; ":"; "~"; "!"; "$"; "&"; x27; "("; ")"; "*"; "+";
                   ","; ";"; "="; "%"; "@"]%byte) s.

Definition bind {A B : Type} (m : A + error) (k : A -> B + error) : B + error :=
  match m with
  | inl a => k a
  | inr e => inr e
  end.

(** [parseHost] *)
Definition parseHost (host : list byte) : list byte + error :=
  if HasPrefix host ["["]%byte
  then
    match LastIndexByte host "]" with
    | None => inr (Foreign "missing ']' in host")
    | Some i =>
        if negb (validOptionalPort (skipn (S i) host))
        then inr (Foreign "invalid port after host")
        else
          match Index (firstn i host) ["%"; "2"; "5"]%byte with
          | Some zone =>
              bind (unescape (firstn zone host) encodeHost) (fun host1 =>
              bind (unescape (firstn (i - zone) (skipn zone host)) encodeZone) (fun host2 =>
              bind (unescape (skipn i host) encodeHost) (fun host3 =>
              inl (host1 ++ host2 ++ host3))))
          | None => unescape host encodeHost
          end
    end
  else
    match LastIndexByte host ":" with
    | Some i =>
        if negb (validOptionalPort (skipn i host))
        then inr (Foreign "invalid port after host")
        else unescape host encodeHost
    | None => unescape host encodeHost
    end.

(** [parseAuthority]: the user information, undecoded, and the host. *)
Definition parseAuthority (authority : list byte) : (option string * list byte) + error :=
  match LastIndexByte authority "@" with
  | None => bind (parseHost authority) (fun host => inl (None, host))
  | Some i =>
      bind (parseHost (skipn (S i) authority)) (fun host =>
      let userinfo := firstn i authority in
      if negb (validUserinfo userinfo) then inr (Foreign "net/url: invalid userinfo")
      else
        bind (unescape (fst (fst (Cut userinfo ":"))) encodeUserPassword) (fun _ =>
        bind (unescape (snd (fst (Cut userinfo ":"))) encodeUserPassword) (fun _ =>
        inl (Some (string_of_list_byte userinfo), host))))
  end.

Definition str (b : list byte) : string := string_of_list_byte b.

(** [parse(rawURL, false)] *)
Definition parse (rawURL : list byte) : netURL.URL + error :=
  if stringContainsCTLByte rawURL
  then inr (Foreign "net/url: invalid control character in URL")
  else if HasPrefix rawURL ["*"]%byte && (List.length rawURL =? 1)%nat
  then inl (netURL.mkURL "" "" None "" "*" "" "")
  else
    bind (getScheme rawURL) (fun '(scheme, rest) =>
    let scheme := map toLower scheme in
    let '(rest, rawQuery) :=
      if (match last_byte rest with Some c => isByte c "?" | None => false end)
         && (Count rest "?" =? 1)%nat
      then (firstn (List.length rest - 1) rest, [])
      else let '(r, q, _) := Cut rest "?" in (r, q) in
    if negb (HasPrefix rest ["/"]%byte)
       && negb (match scheme with [] => true | _ => false end)
    then inl (netURL.mkURL (str scheme) (str rest) None "" "" (str rawQuery) "")
    else if negb (HasPrefix rest ["/"]%byte)
            && existsb (isByte ":") (fst (fst (Cut rest "/")))
    then inr (Foreign "first path segment in URL cannot contain colon")
    else
      bind
        (if (negb (match scheme with [] => true | _ => false end)
             || negb (HasPrefix rest ["/"; "/"; "/"]%byte))
            && HasPrefix rest ["/"; "/"]%byte
         then
           let authority := skipn 2 rest in
           let '(authority, rest) :=
             match Index authority ["/"]%byte with
             | Some i => (firstn i authority, skipn i authority)
             | None => (authority, [])
             end in
           bind (parseAuthority authority) (fun '(user, host) => inl (user, host, rest))
         else inl (None, [], rest))
        (fun '(user, host, rest) =>
         bind (unescape rest encodePath) (fun path =>
         inl (netURL.mkURL (str scheme) "" user (str host) (str path) (str rawQuery) ""))))
  .

(** [url.Parse(rawURL)] *)
Definition Parse (rawURL : string) : netURL.URL + error :=
  let '(u, frag, _) := Cut (list_byte_of_string rawURL) "#" in
  bind (parse u) (fun url =>
  match frag with
  | [] => inl url
  | _ =>
      bind (unescape frag encodeFragment) (fun f =>
      inl (netURL.mkURL (netURL.Scheme url) (netURL.Opaque url) (netURL.User url)
                        (netURL.Host url) (netURL.Path url) (netURL.RawQuery url)
                        (str f)))
  end).

End goURL.

(** ** Vocabulary of the statements *)

(** The content of a buffer that holds the lines [ls], each one followed
    by its line end. *)
Definition terminated (ls : list (list byte)) : list byte :=
  flat_map (fun l => l ++ [NL]) ls.

(** A line the scanner can take: no line end inside, and shorter than the
    largest token. *)
Definition scannable (l : list byte) : Prop :=
  ~ In NL l /\ len l < bufio.MaxScanTokenSize.

(** The connection is open, takes the write deadline, and none of its
    coming writes fails. *)
Definition healthy (c : net.Conn) : Prop :=
  net.closed c = false /\ net.deadline_err c = None /\
  Forall (fun f => f = None) (net.faults c).

(** The line function takes the scanned line [t]: it is not asked about an
    empty line, and answers any other with at least one byte and no error. *)
Definition accepts (f : lineFunc) (t : list byte) : Prop :=
  t = [] \/ (snd (f t) = None /\ fst (f t) <> []).

(** The record of a scanned line [t] on the wire: the payloads of the
    writes made for it when nothing fails. *)
Definition record_of (f : lineFunc) (t : list byte) : list (list byte) :=
  match t with
  | [] => []
  | _ :: _ =>
      let out := fst (f t) in
      match last_byte out with
      | Some x => if Byte.eqb x NL then [out] else [out; [NL]]
      | None => [out]
      end
  end.

Definition records (f : lineFunc) (ls : list (list byte)) : list (list byte) :=
  flat_map (fun l => record_of f (bufio.dropCR l)) ls.

(** The bytes a connection has carried, in order. *)
Definition wire (c : net.Conn) : list byte := List.concat (net.sent c).

(** The lines of a byte stream: each ends with its line end, except
    perhaps the last. *)
Fixpoint frames_from (cur : list byte) (bs : list byte) : list (list byte) :=
  match bs with
  | [] => match cur with [] => [] | _ => [cur] end
  | x :: bs' =>
      if Byte.eqb x NL then (cur ++ [x]) :: frames_from [] bs'
      else frames_from (cur ++ [x]) bs'
  end.

Definition frames (bs : list byte) : list (list byte) := frames_from [] bs.

(** The identity line function. *)
Definition identity : lineFunc := fun line => (line, None).

(** The level is the lowest one the downstream handler reports enabled,
    zero when it reports none. *)
Definition lowest_enabled {H : Type} {DH : slog.Handler H} (d : H) (lvl : slog.Level) : Prop :=
  ((exists l, slog.Enabled d l = true) ->
   slog.Enabled d lvl = true /\ forall l, slog.Enabled d l = true -> lvl <= l) /\
  ((forall l, slog.Enabled d l = false) -> lvl = 0).

(** The address [Connect] takes from a parsed destination. *)
Definition address_of (u : netURL.URL) : string :=
  if String.eqb (netURL.Scheme u) "unix" then netURL.Path u else netURL.Host u.

(** The line function never answers a line that is not empty with no
    bytes and no error. *)
Definition never_empty (f : lineFunc) : Prop :=
  forall t, t <> [] -> snd (f t) = None -> fst (f t) <> [].

(** The options [NewSyslogProxy] works with: a nil pointer stands for the
    zero value. *)
Definition options_of (opts : option SyslogProxyOptions) : SyslogProxyOptions :=
  match opts with
  | Some o => o
  | None => mkSyslogProxyOptions false 0 "" 0 0
  end.

(** The destination [Connect] works on, and the timeout it dials with. *)
Definition destination (url0 : string) (s : SyslogProxy) : string :=
  if String.eqb url0 "" then url s else url0.

Definition dial_timeout {Ext : Externals} (timeout0 : Z) : Z :=
  if timeout0 =? 0 then defaultDialTimeout else timeout0.

Definition stored (u : netURL.URL) : string :=
  String.append (netURL.Scheme u) (String.append "://" (address_of u)).

Import bufio.

(** The states [Scan] keeps the scanner in, started from [NewScanner]. *)
Definition wf (s : Scanner) : Prop :=
  maxTokenSize s = MaxScanTokenSize /\
  0 <= start s /\ s_end s <= cap s /\ cap s <= MaxScanTokenSize.

(** ** Fixtures of the examples *)

(** A downstream handler that lets through the levels from [minLevel] up,
    and renders a record as its message on one line. *)
Record Stub : Type := mkStub {
  minLevel : slog.Level;
  failure : option error
}.

#[export] Instance Stub_Handler : slog.Handler Stub := {
  slog.Enabled := fun d l => minLevel d <=? l;
  slog.Handle := fun d r => (d, B (slog.Message r) ++ [NL], failure d)
}.

(** A connection just dialled. *)
Definition fresh (network address : string) : net.Conn :=
  net.mkConn network address false [] None [].

(** Two environments: in both, [url_Parse] is the model of [url.Parse], the
    levels are the four levels of [log/slog] in ascending order, the
    program is [/usr/bin/app] and the constants of the package have
    the values below; dialling always succeeds in [online], and always
    fails in [offline]. *)
Definition environment (dial : nat -> string -> string -> Z -> net.Conn + error)
  : Externals := {|
  allowedLevels := [-4; 0; 4; 8];
  defaultDialTimeout := 5;
  InitialIOBufSize := 4096;
  InitialLineProcessBufSize := 4096;
  TrimTimestamp := fun line => (line, None);
  url_Parse := goURL.Parse;
  net_DialTimeout := dial;
  os_Args := ["/usr/bin/app"]
|}.

Definition online : Externals :=
  environment (fun _ network address _ => inl (fresh network address)).

Definition offline : Externals :=
  environment (fun _ _ _ _ => inr (Foreign "connect: connection refused")).

(** A proxy as [NewSyslogProxy] makes it, then connected to [c] or not,
    with [b] in its buffer. *)
Definition proxy_with (b : bytes.Buffer) (c : option net.Conn) : SyslogProxy :=
  mkSyslogProxy b [] 14 "app" "" c false 5 (sync.mkMutex false 0).

Definition udp514 : net.Conn := fresh "udp" "1.2.3.4:514".

(** The line function that answers every line with the two lines
    ["x\ny"]. *)
Definition two_lines : lineFunc := fun _ => (B "x" ++ [NL] ++ B "y", None).

(** The line function that fails on the line ["bb"]. *)
Definition fails_on_bb : lineFunc :=
  fun line => if (len line =? 2) then ([], Some (Foreign "boom")) else (line, None).

(** The line function that answers every line with no bytes. *)
Definition erase : lineFunc := fun _ => ([], None).

(** A line as long as the largest token of the scanner. *)
Definition long_line : list byte := repeat "a"%byte (Z.to_nat MaxScanTokenSize).

(** ** The derived handlers

    [Copy], [WithAttrs] and [WithGroup] make new [*SyslogHandler] values
    and [WithGroup("")] hands back its receiver: handlers are objects
    with an identity.  They live in a heap, a list in which the address
    of an object is its position; [new(...)] appends. *)

(** What a downstream [slog.Handler] offers besides [Enabled] and
    [Handle]: its own [WithAttrs] and [WithGroup].  [Attr] stands for
    [slog.Attr], which the forwarding handler only passes on. *)
Class Deriving (H Attr : Type) : Type := {
  downstream_WithAttrs : H -> list Attr -> H;
  downstream_WithGroup : H -> string -> H
}.

(** The struct [SyslogHandler] with its two pointer fields: [syslogPx]
    is the address of the proxy, [handler] the downstream handler, and
    [fields] holds [level] and [lineProcessFunc]. *)
Record SyslogHandlerObject (H : Type) : Type := mkObject {
  syslogPx : nat;
  handler : H;
  fields : SyslogHandler
}.

Definition Heap (H : Type) : Type := list (SyslogHandlerObject H).

(** [*p = o] for an allocated [p]. *)
Fixpoint store {H : Type} (heap : Heap H) (p : nat) (o : SyslogHandlerObject H) : Heap H :=
  match heap, p with
  | [], _ => []
  | _ :: heap', O => o :: heap'
  | x :: heap', S p' => x :: store heap' p' o
  end.

Section Derived.

Context {H Attr : Type} {DV : Deriving H Attr}.

(** [h.Copy()]: the heap with the new object, and its address; [None]
    is the nil pointer dereference. *)
Definition Copy (heap : Heap H) (h : nat) : option (Heap H * nat) :=
  match nth_error heap h with
  | None => None
  | Some o =>
      let rv := mkObject (syslogPx o) (handler o)
                         (mkSyslogHandler (level (fields o)) (lineProcessFunc (fields o))) in
      Some (heap ++ [rv], List.length heap)
  end.

(** [h.WithAttrs(aa)] *)
Definition WithAttrs (heap : Heap H) (h : nat) (aa : list Attr) : option (Heap H * nat) :=
  match Copy heap h with
  | None => None
  | Some (heap1, hh) =>
      match nth_error heap1 hh, nth_error heap1 h with
      | Some c, Some o =>
          Some (store heap1 hh
                      (mkObject (syslogPx c) (downstream_WithAttrs (handler o) aa) (fields c)),
                hh)
      | _, _ => None
      end
  end.

(** [h.WithGroup(name)] *)
Definition WithGroup (heap : Heap H) (h : nat) (name : string) : option (Heap H * nat) :=
  if negb (String.eqb name "")
  then
    match Copy heap h with
    | None => None
    | Some (heap1, rv) =>
        match nth_error heap1 rv, nth_error heap1 h with
        | Some c, Some o =>
            Some (store heap1 rv
                        (mkObject (syslogPx c) (downstream_WithGroup (handler o) name) (fields c)),
                  rv)
        | _, _ => None
        end
    end
  else Some (heap, h).

(** A caller's chain of derivations, [h.WithAttrs(aa).WithGroup(g)...]. *)
Inductive derivation : Type :=
| ByAttrs (aa : list Attr)
| ByGroup (name : string).

Fixpoint derive (heap : Heap H) (h : nat) (ops : list derivation) : option (Heap H * nat) :=
  match ops with
  | [] => Some (heap, h)
  | op :: ops' =>
      match (match op with
             | ByAttrs aa => WithAttrs heap h aa
             | ByGroup name => WithGroup heap h name
             end) with
      | None => None
      | Some (heap', h') => derive heap' h' ops'
      end
  end.

(** What the chain asks of the downstream handler: an empty group name
    asks nothing. *)
Definition downstream_step (d : H) (op : derivation) : H :=
  match op with
  | ByAttrs aa => downstream_WithAttrs d aa
  | ByGroup name => if String.eqb name "" then d else downstream_WithGroup d name
  end.

Definition empty_group (op : derivation) : bool :=
  match op with
  | ByGroup name => String.eqb name ""
  | ByAttrs _ => false
  end.

End Derived.

(** ** More vocabulary *)

(** The connection is open, takes the write deadline, and its next [n]
    writes succeed. *)
Definition ok_for (n : nat) (c : net.Conn) : Prop :=
  net.closed c = false /\ net.deadline_err c = None /\
  Forall (fun f => f = None) (firstn n (net.faults c)).

(** [c'] is [c] after some writes: the same end point in the same state,
    with more payloads sent and a part of the script of faults used. *)
Definition continues (c c' : net.Conn) : Prop :=
  net.network c' = net.network c /\ net.address c' = net.address c /\
  net.closed c' = net.closed c /\ net.deadline_err c' = net.deadline_err c /\
  (exists more, net.sent c' = net.sent c ++ more) /\
  (exists used, net.faults c = used ++ net.faults c').

(** The error wraps one of the three errors [ProcessLines] makes itself. *)
Definition drain_error (e : error) : bool :=
  errors_Is e ErrSyslogConnection || errors_Is e ErrSyslogWrite
  || errors_Is e ErrSyslogProcessHandleResult.

(** The fields of the proxy that a drain has no business with. *)
Definition same_settings (s s' : SyslogProxy) : Prop :=
  lineProcessBuf s' = lineProcessBuf s /\ priority s' = priority s /\
  tag s' = tag s /\ url s' = url s /\ useLocalTZ s' = useLocalTZ s /\
  timeout s' = timeout s /\ mu s' = mu s.


Definition line_size {Ext : Externals} (o : SyslogProxyOptions) : Z :=
  if LineProcessBufSize o =? 0 then InitialLineProcessBufSize else LineProcessBufSize o.

(** A downstream handler for the examples of derivation: it remembers
    what it was asked. *)
#[export] Instance Stub_Deriving : Deriving (list string) string := {
  downstream_WithAttrs := fun d aa => d ++ aa;
  downstream_WithGroup := fun d name => d ++ [name]
}.


(** A downstream handler that fails a given number of times, after having
    written its output, and works from then on. *)
Record Flaky : Type := mkFlaky {
  failuresLeft : nat
}.

#[export] Instance Flaky_Handler : slog.Handler Flaky := {
  slog.Enabled := fun _ _ => true;
  slog.Handle := fun d r =>
    match failuresLeft d with
    | O => (d, B (slog.Message r) ++ [NL], None)
    | S n => (mkFlaky n, B (slog.Message r) ++ [NL], Some (Foreign "disk"))
    end
}.


(** The connection as a line leaves it. *)
Definition flow_conn (fl : flow) : net.Conn :=
  match fl with
  | Continue c => c
  | Break _ c => c
  end.


(** * Properties *)

Unset Implicit Arguments.

(** ** Lists and slices *)

Lemma len_nonneg {A : Type} (l : list A) : 0 <= len l.
Proof. unfold len. lia. Qed.

Lemma len_app {A : Type} (l m : list A) : len (l ++ m) = len l + len m.
Proof. unfold len. rewrite length_app. lia. Qed.

Lemma len_nil_iff {A : Type} (l : list A) : len l = 0 <-> l = [].
Proof.
  unfold len. split; intros E.
  - destruct l; [reflexivity | simpl in E; lia].
  - subst. reflexivity.
Qed.

Lemma slice_to_app {A : Type} (l m : list A) : slice_to (l ++ m) (len l) = l.
Proof.
  unfold slice_to, len. rewrite Nat2Z.id.
  rewrite firstn_app, Nat.sub_diag, firstn_all. simpl. apply app_nil_r.
Qed.

Lemma slice_from_app {A : Type} (l m : list A) : slice_from (l ++ m) (len l) = m.
Proof.
  unfold slice_from, len. rewrite Nat2Z.id.
  rewrite skipn_app, Nat.sub_diag, skipn_all. reflexivity.
Qed.

Lemma slice_from_0 {A : Type} (l : list A) : slice_from l 0 = l.
Proof. reflexivity. Qed.

Lemma slice_to_from {A : Type} (l : list A) (n : Z) : slice_to l n ++ slice_from l n = l.
Proof. apply firstn_skipn. Qed.

Lemma IndexByte_lower (b : list byte) (c : byte) : -1 <= bytes.IndexByte b c.
Proof.
  induction b as [|x b IH]; simpl; [lia|].
  destruct (Byte.eqb x c); [lia|].
  destruct (bytes.IndexByte b c <? 0) eqn:E; lia.
Qed.

Lemma IndexByte_absent (b : list byte) (c : byte) :
  ~ In c b -> bytes.IndexByte b c = -1.
Proof.
  induction b as [|x b IH]; simpl; intros Hn; [reflexivity|].
  destruct (Byte.eqb x c) eqn:E.
  - apply Byte.byte_dec_bl in E. tauto.
  - rewrite IH by tauto. reflexivity.
Qed.

Lemma IndexByte_first (l rest : list byte) (c : byte) :
  ~ In c l -> bytes.IndexByte (l ++ c :: rest) c = len l.
Proof.
  induction l as [|x l IH]; simpl; intros Hn.
  - rewrite (Byte.byte_dec_lb eq_refl). reflexivity.
  - destruct (Byte.eqb x c) eqn:E.
    + apply Byte.byte_dec_bl in E. tauto.
    + rewrite IH by tauto.
      pose proof (len_nonneg l) as Hl.
      destruct (len l <? 0) eqn:E'; [lia|].
      unfold len. simpl List.length. lia.
Qed.

(** ** The scanner *)


Lemma wf_NewScanner : wf NewScanner.
Proof. repeat split; try reflexivity; vm_compute; discriminate. Qed.

Lemma MaxScanTokenSize_val : MaxScanTokenSize = 65536.
Proof. reflexivity. Qed.

Lemma half_maxInt : maxInt / 2 = 4611686018427387903.
Proof. reflexivity. Qed.

Lemma startBufSize_val : startBufSize = 4096.
Proof. reflexivity. Qed.

Lemma shift_spec (s : Scanner) :
  wf s ->
  wf (shift s) /\ window (shift s) = window s /\ err (shift s) = err s /\
  token (shift s) = token s /\
  (s_end (shift s) = cap (shift s) -> start (shift s) = 0).
Proof.
  unfold wf, shift, s_end. intros (Hm & Hs & He & Hc).
  pose proof (len_nonneg (window s)) as Hl.
  destruct ((0 <? start s) && ((start s + len (window s) =? cap s) || (cap s / 2 <? start s))) eqn:E;
    simpl.
  - repeat split; try assumption; try reflexivity. all: lia.
  - repeat split; try assumption; try reflexivity.
    intros Hfull.
    apply andb_false_iff in E. destruct E as [E|E]; [lia|].
    apply orb_false_iff in E. destruct E as [E _]. lia.
Qed.

Lemma grow_spec (s : Scanner) :
  wf s -> start s = 0 -> len (window s) = cap s -> cap s < MaxScanTokenSize ->
  wf (grow s) /\ window (grow s) = window s /\ err (grow s) = err s /\
  token (grow s) = token s /\ s_end (grow s) < cap (grow s).
Proof.
  unfold wf, grow, s_end. intros (Hm & Hs & He & Hc) H0 Hfull Hlt.
  rewrite Hm, MaxScanTokenSize_val, startBufSize_val in *.
  pose proof (len_nonneg (window s)) as Hl.
  simpl.
  destruct (cap s * 2 =? 0) eqn:E; repeat split; try assumption; try reflexivity; lia.
Qed.

(** Reading with room left, from a buffer that still holds bytes. *)
Lemma read_some (s : Scanner) (r : bytes.Buffer) :
  wf s -> err s = None -> s_end s < cap s -> r <> [] ->
  exists p r' s',
    read s r = (s', r') /\ r = p ++ r' /\ p <> [] /\
    window s' = window s ++ p /\ wf s' /\ err s' = None.
Proof.
  unfold wf, s_end. intros (Hm & Hs & He & Hc) Herr Hroom Hr.
  destruct r as [|x r]; [congruence|].
  unfold read, bytes.Read, s_end.
  set (room := cap s - (start s + len (window s))).
  set (p := slice_to (x :: r) room).
  assert (Hp : p <> []).
  { unfold p, slice_to. destruct (Z.to_nat room) eqn:E; [lia|]. simpl. discriminate. }
  assert (Hlen : 0 < len p <= room).
  { split.
    - pose proof (len_nonneg p). destruct (len_nil_iff p) as [Hn _].
      destruct (Z.eq_dec (len p) 0) as [E|E]; [tauto|lia].
    - unfold p, slice_to, len. rewrite length_firstn. lia. }
  exists p, (slice_from (x :: r) room).
  destruct (0 <? len p) eqn:E; [|lia].
  eexists. split; [reflexivity|].
  split; [symmetry; apply slice_to_from|].
  split; [assumption|].
  simpl. rewrite len_app. repeat split; try assumption; lia.
Qed.

(** Reading from a drained buffer. *)
Lemma read_eof (s : Scanner) :
  wf s -> err s = None -> s_end s < cap s ->
  exists s',
    read s [] = (s', []) /\ window s' = window s /\ wf s' /\ err s' = Some EOF /\
    token s' = token s.
Proof.
  unfold wf, s_end. intros (Hm & Hs & He & Hc) Herr Hroom.
  unfold read, bytes.Read, s_end.
  destruct (cap s - (start s + len (window s)) =? 0) eqn:E; [lia|]. simpl.
  unfold setErr. simpl. rewrite Herr.
  eexists. split; [reflexivity|]. simpl.
  rewrite app_nil_r. repeat split; assumption.
Qed.

(** [fill] on a scanner without an error whose window is shorter than the
    longest token: it reads. *)
Lemma fill_reads (s : Scanner) (r : bytes.Buffer) :
  wf s -> err s = None -> len (window s) < MaxScanTokenSize ->
  exists s0, wf s0 /\ err s0 = None /\ window s0 = window s /\ token s0 = token s /\
             s_end s0 < cap s0 /\
             fill s r = (let '(s', r') := read s0 r in Again s' r').
Proof.
  intros Hwf Herr Hshort.
  destruct (shift_spec s Hwf) as (Hwf1 & Hw1 & He1 & Ht1 & Hfull1).
  unfold fill. rewrite Herr.
  destruct (s_end (shift s) =? cap (shift s)) eqn:Efull.
  - apply Z.eqb_eq in Efull.
    specialize (Hfull1 Efull).
    assert (Hcap : len (window (shift s)) = cap (shift s)).
    { unfold s_end in Efull. lia. }
    assert (Hlt : cap (shift s) < MaxScanTokenSize) by (rewrite <- Hcap, Hw1; exact Hshort).
    destruct Hwf1 as (Hm & Hs & He & Hc).
    replace ((maxTokenSize (shift s) <=? cap (shift s)) || (maxInt / 2 <? cap (shift s)))
      with false.
    2:{ symmetry. apply orb_false_iff. rewrite Hm, half_maxInt.
        rewrite MaxScanTokenSize_val in *. split; lia. }
    assert (Hwf1 : wf (shift s)) by (repeat split; assumption).
    destruct (grow_spec (shift s) Hwf1 Hfull1 Hcap Hlt) as (Hwf2 & Hw2 & He2 & Ht2 & Hroom).
    exists (grow (shift s)).
    repeat split; try apply Hwf2; try congruence.
  - apply Z.eqb_neq in Efull.
    exists (shift s).
    repeat split; try apply Hwf1; try congruence.
    destruct Hwf1 as (Hm & Hs & He & Hc). lia.
Qed.

Lemma fill_more (s : Scanner) (r : bytes.Buffer) :
  wf s -> err s = None -> len (window s) < MaxScanTokenSize -> r <> [] ->
  exists p r' s',
    fill s r = Again s' r' /\ r = p ++ r' /\ p <> [] /\
    window s' = window s ++ p /\ wf s' /\ err s' = None.
Proof.
  intros Hwf Herr Hshort Hr.
  destruct (fill_reads s r Hwf Herr Hshort) as (s0 & Hwf0 & He0 & Hw0 & _ & Hroom & ->).
  destruct (read_some s0 r Hwf0 He0 Hroom Hr) as (p & r' & s' & -> & Hsplit & Hp & Hw & Hwf' & He').
  exists p, r', s'. rewrite <- Hw0. split; [reflexivity | tauto].
Qed.

Lemma fill_eof (s : Scanner) :
  wf s -> err s = None -> len (window s) < MaxScanTokenSize ->
  exists s',
    fill s [] = Again s' [] /\ window s' = window s /\ wf s' /\ err s' = Some EOF.
Proof.
  intros Hwf Herr Hshort.
  destruct (fill_reads s [] Hwf Herr Hshort) as (s0 & Hwf0 & He0 & Hw0 & _ & Hroom & ->).
  destruct (read_eof s0 Hwf0 He0 Hroom) as (s' & -> & Hw & Hwf' & He' & _).
  exists s'. rewrite <- Hw0. split; [reflexivity | tauto].
Qed.

Lemma ScanLines_more (data : list byte) :
  ~ In NL data -> ScanLines data false = (0, None).
Proof.
  intros Hnl. unfold ScanLines. simpl andb. cbv iota.
  rewrite (IndexByte_absent _ _ Hnl). reflexivity.
Qed.

Lemma ScanLines_line (data l w' : list byte) (atEOF : bool) :
  data = l ++ NL :: w' -> ~ In NL l ->
  ScanLines data atEOF = (len l + 1, Some (dropCR l)).
Proof.
  intros -> Hnl. unfold ScanLines.
  assert (Hlen : (len (l ++ NL :: w') =? 0) = false).
  { apply Z.eqb_neq. rewrite len_app. unfold len at 2. simpl List.length.
    pose proof (len_nonneg l). lia. }
  rewrite Hlen, andb_false_r. cbv iota.
  rewrite (IndexByte_first _ _ _ Hnl).
  pose proof (len_nonneg l) as Hl.
  destruct (0 <=? len l) eqn:E; [|lia].
  rewrite slice_to_app. reflexivity.
Qed.

Lemma ScanLines_last (data : list byte) :
  ~ In NL data -> data <> [] -> ScanLines data true = (len data, Some (dropCR data)).
Proof.
  intros Hnl Hne. unfold ScanLines.
  assert (Hlen : (len data =? 0) = false).
  { apply Z.eqb_neq. intros E. apply len_nil_iff in E. contradiction. }
  rewrite Hlen. simpl andb. cbv iota.
  rewrite (IndexByte_absent _ _ Hnl). reflexivity.
Qed.

Lemma advance_ok (s : Scanner) (n : Z) :
  0 <= n <= len (window s) ->
  advance s n =
    (true, mkScanner (maxTokenSize s) (token s) (cap s) (start s + n)
                     (slice_from (window s) n) (err s)).
Proof.
  intros Hn. unfold advance.
  destruct (n <? 0) eqn:E1; [lia|].
  destruct (len (window s) <? n) eqn:E2; [lia|]. reflexivity.
Qed.

(** A window without a line end, no error yet: the split function asks
    for more and the turn goes on to [fill]. *)
Lemma turn_needs_more (s : Scanner) (r : bytes.Buffer) :
  wf s -> err s = None -> ~ In NL (window s) ->
  exists s0, scan_turn s r = fill s0 r /\ wf s0 /\ err s0 = None /\ window s0 = window s.
Proof.
  intros Hwf Herr Hnl.
  unfold scan_turn, failed. rewrite Herr, orb_false_r.
  destruct (0 <? len (window s)) eqn:E.
  - rewrite (ScanLines_more _ Hnl).
    rewrite advance_ok by (pose proof (len_nonneg (window s)); lia).
    simpl negb. cbv iota.
    eexists. split; [reflexivity|].
    unfold wf, s_end in *. simpl. rewrite Z.add_0_r. tauto.
  - exists s. tauto.
Qed.

(** A window holding a whole line: the turn hands it out. *)
Lemma turn_line (s : Scanner) (r : bytes.Buffer) (l w' : list byte) :
  wf s -> window s = l ++ NL :: w' -> ~ In NL l ->
  exists s', scan_turn s r = Done true s' r /\ token s' = dropCR l /\
             window s' = w' /\ wf s' /\ err s' = err s.
Proof.
  intros Hwf Hw Hnl.
  assert (Hlen : len (window s) = len l + 1 + len w').
  { rewrite Hw, len_app. unfold len at 2. simpl List.length. fold (len w').
    unfold len. lia. }
  pose proof (len_nonneg l) as Hl. pose proof (len_nonneg w') as Hl'.
  unfold scan_turn.
  destruct (0 <? len (window s)) eqn:E; [|lia]. simpl orb. cbv iota.
  rewrite (ScanLines_line _ _ _ _ Hw Hnl).
  rewrite advance_ok by lia.
  simpl negb. cbv iota.
  eexists. split; [reflexivity|]. simpl.
  split; [reflexivity|].
  assert (Hrest : slice_from (window s) (len l + 1) = w').
  { rewrite Hw. replace (l ++ NL :: w') with ((l ++ [NL]) ++ w') by (rewrite <- app_assoc; reflexivity).
    replace (len l + 1) with (len (l ++ [NL])) by (rewrite len_app; reflexivity).
    apply slice_from_app. }
  split; [exact Hrest|].
  split; [|reflexivity].
  unfold wf, s_end in *. simpl. rewrite Hrest. lia.
Qed.

(** At the end of the input, what is left in the window is the last line. *)
Lemma turn_last (s : Scanner) (r : bytes.Buffer) :
  wf s -> err s = Some EOF -> ~ In NL (window s) -> window s <> [] ->
  exists s', scan_turn s r = Done true s' r /\ token s' = dropCR (window s) /\
             window s' = [] /\ wf s' /\ err s' = Some EOF.
Proof.
  intros Hwf Herr Hnl Hne.
  pose proof (len_nonneg (window s)) as Hl.
  unfold scan_turn, failed. rewrite Herr, orb_true_r.
  rewrite (ScanLines_last _ Hnl Hne).
  rewrite advance_ok by lia.
  simpl negb. cbv iota.
  eexists. split; [reflexivity|]. simpl.
  assert (Hrest : slice_from (window s) (len (window s)) = []).
  { unfold slice_from, len. rewrite Nat2Z.id. apply skipn_all. }
  rewrite Hrest.
  split; [reflexivity|]. split; [reflexivity|]. split; [|exact Herr].
  unfold wf, s_end, len in *. simpl. lia.
Qed.

(** At the end of the input with an empty window, [Scan] is over. *)
Lemma turn_over (s : Scanner) (r : bytes.Buffer) :
  err s = Some EOF -> window s = [] ->
  exists s', scan_turn s r = Done false s' r /\ err s' = Some EOF.
Proof.
  intros Herr Hw.
  unfold scan_turn, failed. rewrite Herr, orb_true_r, Hw.
  change (ScanLines [] true) with (0, @None (list byte)). cbv iota.
  rewrite advance_ok by (rewrite Hw; unfold len; simpl; lia).
  simpl negb. cbv iota.
  unfold fill, set_token. simpl err. rewrite Herr.
  eexists. split; [reflexivity|]. reflexivity.
Qed.

Lemma split_shorter {A : Type} (r p r' : list A) :
  r = p ++ r' -> p <> [] -> (List.length r' < List.length r)%nat.
Proof.
  intros -> Hp. rewrite length_app. destruct p; [congruence | simpl; lia].
Qed.

(** [Scan] on input that starts with a whole line [l]: the token is the
    line without its end, and what follows the line is left to scan. *)
Lemma Scan_loop_line (fuel : nat) :
  forall (s : Scanner) (r : bytes.Buffer) (l rest : list byte),
    wf s -> err s = None ->
    window s ++ r = l ++ NL :: rest ->
    ~ In NL l -> len l < MaxScanTokenSize ->
    (List.length r < fuel)%nat ->
    exists s' r',
      Scan_loop fuel s r = Some (true, s', r') /\ token s' = dropCR l /\
      wf s' /\ err s' = None /\ window s' ++ r' = rest.
Proof.
  induction fuel as [|fuel IH]; intros s r l rest Hwf Herr Hsplit Hnl Hshort Hfuel; [lia|].
  apply app_eq_app in Hsplit. destruct Hsplit as (x & [[Hw Hr] | [Hl Hr]]).
  - destruct x as [|c w'].
    + (* the window is exactly [l]: the line end is still in the buffer *)
      rewrite app_nil_r in Hw. simpl in Hr. subst r.
      assert (Hnlw : ~ In NL (window s)) by (rewrite Hw; exact Hnl).
      destruct (turn_needs_more s (NL :: rest) Hwf Herr Hnlw) as (s0 & Ht & Hwf0 & He0 & Hw0).
      assert (Hshort0 : len (window s0) < MaxScanTokenSize) by (rewrite Hw0, Hw; exact Hshort).
      destruct (fill_more s0 (NL :: rest) Hwf0 He0 Hshort0 ltac:(discriminate))
        as (p & r' & s1 & Hf & Hpr & Hp & Hw1 & Hwf1 & He1).
      assert (Hlt : (List.length r' < fuel)%nat).
      { pose proof (split_shorter _ _ _ Hpr Hp). lia. }
      destruct (IH s1 r' l rest Hwf1 He1) as (s' & r'' & HS & Htok & Hwf' & He' & Hrest);
        try assumption.
      { rewrite Hw1, Hw0, Hw, <- app_assoc, <- Hpr. reflexivity. }
      exists s', r''. simpl. rewrite Ht, Hf. tauto.
    + (* the line end is in the window *)
      injection Hr as <- ->.
      destruct (turn_line s r l w' Hwf Hw Hnl) as (s' & Ht & Htok & Hw' & Hwf' & He').
      exists s', r. simpl. rewrite Ht, Hw'. rewrite He', Herr. tauto.
  - (* the window is a proper part of [l] *)
    subst l r.
    assert (Hnlw : ~ In NL (window s)) by (intros Hin; apply Hnl, in_or_app; tauto).
    destruct (turn_needs_more s (x ++ NL :: rest) Hwf Herr Hnlw) as (s0 & Ht & Hwf0 & He0 & Hw0).
    assert (Hshort0 : len (window s0) < MaxScanTokenSize).
    { rewrite Hw0. rewrite len_app in Hshort. pose proof (len_nonneg x). lia. }
    destruct (fill_more s0 (x ++ NL :: rest) Hwf0 He0 Hshort0
                ltac:(destruct x; discriminate))
      as (p & r' & s1 & Hf & Hpr & Hp & Hw1 & Hwf1 & He1).
    assert (Hlt : (List.length r' < fuel)%nat).
    { pose proof (split_shorter _ _ _ Hpr Hp). lia. }
    destruct (IH s1 r' (window s ++ x) rest Hwf1 He1) as (s' & r'' & HS & Htok & Hwf' & He' & Hrest);
      try assumption.
    { rewrite Hw1, Hw0, <- !app_assoc, <- Hpr. reflexivity. }
    exists s', r''. simpl. rewrite Ht, Hf. tauto.
Qed.

(** [Scan] on input that holds no line end: the input is read to its end;
    if it is not empty it is handed out as the last line, and the
    scanner is left at the end of the input with nothing in its window. *)
Lemma Scan_loop_tail (fuel : nat) :
  forall (s : Scanner) (r : bytes.Buffer) (l : list byte),
    wf s -> err s = None ->
    window s ++ r = l ->
    ~ In NL l -> len l < MaxScanTokenSize ->
    (S (List.length r) < fuel)%nat ->
    exists s',
      Scan_loop fuel s r =
        Some (match l with [] => false | _ => true end, s', []) /\
      (l <> [] -> token s' = dropCR l) /\
      err s' = Some EOF /\ (l <> [] -> wf s' /\ window s' = []).
Proof.
  induction fuel as [|fuel IH]; intros s r l Hwf Herr Hsplit Hnl Hshort Hfuel; [lia|].
  assert (Hnlw : ~ In NL (window s)).
  { intros Hin; apply Hnl. rewrite <- Hsplit. apply in_or_app; tauto. }
  assert (Hshortw : len (window s) < MaxScanTokenSize).
  { rewrite <- Hsplit, len_app in Hshort. pose proof (len_nonneg r). lia. }
  destruct (turn_needs_more s r Hwf Herr Hnlw) as (s0 & Ht & Hwf0 & He0 & Hw0).
  rewrite <- Hw0 in Hshortw.
  destruct r as [|c r].
  - (* the buffer is drained: the read reports the end of the input *)
    rewrite app_nil_r in Hsplit.
    destruct (fill_eof s0 Hwf0 He0 Hshortw) as (s1 & Hf & Hw1 & Hwf1 & He1).
    destruct fuel as [|fuel]; [simpl in Hfuel; lia|].
    cbn [Scan_loop]. rewrite Ht, Hf.
    destruct l as [|c l].
    + assert (Hw1' : window s1 = []) by congruence.
      destruct (turn_over s1 [] He1 Hw1') as (s' & Ht' & He').
      exists s'. rewrite Ht'. repeat split; try assumption; congruence.
    + assert (Hne : window s1 <> []) by (rewrite Hw1, Hw0, Hsplit; discriminate).
      assert (Hnl1 : ~ In NL (window s1)) by (rewrite Hw1, Hw0; exact Hnlw).
      destruct (turn_last s1 [] Hwf1 He1 Hnl1 Hne) as (s' & Ht' & Htok & Hw' & Hwf' & He').
      exists s'. rewrite Ht'.
      split; [reflexivity|].
      split; [intros _; rewrite Htok, Hw1, Hw0, Hsplit; reflexivity|].
      split; [exact He'|]. intros _. split; assumption.
  - destruct (fill_more s0 (c :: r) Hwf0 He0 Hshortw ltac:(discriminate))
      as (p & r' & s1 & Hf & Hpr & Hp & Hw1 & Hwf1 & He1).
    assert (Hlt : (S (List.length r') < fuel)%nat).
    { pose proof (split_shorter _ _ _ Hpr Hp). lia. }
    destruct (IH s1 r' l Hwf1 He1) as (s' & HS & Hrest); try assumption.
    { rewrite Hw1, Hw0, <- app_assoc, <- Hpr. exact Hsplit. }
    exists s'. cbn [Scan_loop]. rewrite Ht, Hf. tauto.
Qed.

(** ** Termination of the loops *)

(** None of these facts needs [wf]: they hold from any scanner state. *)

Lemma window_shift (s : Scanner) : window (shift s) = window s /\ err (shift s) = err s.
Proof. unfold shift. destruct (_ && _); split; reflexivity. Qed.

Lemma read_cases (s : Scanner) (r : bytes.Buffer) :
  err s = None ->
  (List.length (window (fst (read s r))) + List.length (snd (read s r))
   = List.length (window s) + List.length r)%nat /\
  (List.length (snd (read s r)) <= List.length r)%nat /\
  (err (fst (read s r)) = None -> (List.length (snd (read s r)) < List.length r)%nat).
Proof.
  intros Herr. unfold read, bytes.Read.
  destruct r as [|x r].
  - destruct (negb (cap s - s_end s =? 0)); simpl;
      unfold setErr; simpl; rewrite Herr; simpl; rewrite app_nil_r;
      (split; [lia | split; [lia | discriminate]]).
  - set (n := Z.to_nat (cap s - s_end s)).
    unfold slice_to, slice_from. fold n.
    assert (Hsum : (List.length (firstn n (x :: r)) + List.length (skipn n (x :: r))
                    = List.length (x :: r))%nat).
    { rewrite <- length_app, firstn_skipn. reflexivity. }
    destruct (0 <? len (firstn n (x :: r))) eqn:E; simpl fst; simpl snd.
    + cbn [window err]. rewrite length_app.
      split; [lia|]. split; [lia|]. intros _.
      apply Z.ltb_lt in E. unfold len in E. lia.
    + unfold setErr. cbn [err]. rewrite Herr. cbn [window err]. rewrite length_app.
      split; [lia|]. split; [lia|]. discriminate.
Qed.

Lemma fill_cases (s : Scanner) (r : bytes.Buffer) :
  match fill s r with
  | Done found s' r' =>
      found = false /\ r' = r /\ (List.length (window s') <= List.length (window s))%nat
  | Again s' r' =>
      err s = None /\
      (List.length (window s') + List.length r' = List.length (window s) + List.length r)%nat /\
      (List.length r' <= List.length r)%nat /\
      (err s' = None -> (List.length r' < List.length r)%nat)
  end.
Proof.
  unfold fill. destruct (err s) eqn:Herr.
  - simpl. repeat split. lia.
  - destruct (window_shift s) as [Hw He]. rewrite Herr in He.
    assert (Hg : window (grow (shift s)) = window s /\ err (grow (shift s)) = None).
    { unfold grow. simpl. tauto. }
    destruct Hg as [Hwg Heg].
    destruct (s_end (shift s) =? cap (shift s)).
    + destruct ((maxTokenSize (shift s) <=? cap (shift s)) || (maxInt / 2 <? cap (shift s))).
      * unfold setErr. rewrite He. simpl. rewrite Hw. repeat split. lia.
      * pose proof (read_cases (grow (shift s)) r Heg) as Hr.
        destruct (read (grow (shift s)) r) as [s' r']. cbn [fst snd] in Hr.
        rewrite Hwg in Hr. tauto.
    + pose proof (read_cases (shift s) r He) as Hr.
      destruct (read (shift s) r) as [s' r']. cbn [fst snd] in Hr.
      rewrite Hw in Hr. tauto.
Qed.

Lemma ScanLines_advance (data : list byte) (atEOF : bool) :
  match ScanLines data atEOF with
  | (adv, Some _) => 0 < adv
  | (adv, None) => adv = 0
  end.
Proof.
  unfold ScanLines.
  destruct (atEOF && (len data =? 0)) eqn:E0; [reflexivity|].
  pose proof (IndexByte_lower data NL) as Hi.
  destruct (0 <=? bytes.IndexByte data NL) eqn:E1; [lia|].
  destruct atEOF; [|reflexivity].
  simpl in E0. pose proof (len_nonneg data). lia.
Qed.

Lemma length_slice_from {A : Type} (l : list A) (n : Z) :
  0 <= n <= len l -> len (slice_from l n) = len l - n.
Proof. unfold slice_from, len. intros Hn. rewrite length_skipn. lia. Qed.

Lemma turn_cases (s : Scanner) (r : bytes.Buffer) :
  match scan_turn s r with
  | Done found s' r' =>
      r' = r /\ (List.length (window s') <= List.length (window s))%nat /\
      (found = true -> (List.length (window s') < List.length (window s))%nat)
  | Again s' r' =>
      err s = None /\
      (List.length (window s') + List.length r' = List.length (window s) + List.length r)%nat /\
      (List.length r' <= List.length r)%nat /\
      (err s' = None -> (List.length r' < List.length r)%nat)
  end.
Proof.
  unfold scan_turn.
  destruct ((0 <? len (window s)) || failed s).
  - pose proof (ScanLines_advance (window s) (failed s)) as Hadv.
    destruct (ScanLines (window s) (failed s)) as [adv tok].
    unfold advance.
    destruct (adv <? 0) eqn:E1.
    { simpl. unfold setErr. destruct (err s) as [[]|]; simpl; repeat split; try lia; discriminate. }
    destruct (len (window s) <? adv) eqn:E2.
    { simpl. unfold setErr. destruct (err s) as [[]|]; simpl; repeat split; try lia; discriminate. }
    simpl negb. cbv iota.
    destruct tok as [t|].
    + simpl. split; [reflexivity|].
      pose proof (length_slice_from (window s) adv ltac:(lia)) as Hl.
      unfold len in Hl. split; [lia|]. intros _. lia.
    + subst adv.
      pose proof (fill_cases
                    (set_token (mkScanner (maxTokenSize s) (token s) (cap s) (start s + 0)
                                          (slice_from (window s) 0) (err s)) []) r) as Hf.
      destruct (fill _ r) as [found s' r'|s' r']; simpl in Hf.
      * destruct Hf as (-> & -> & Hl). split; [reflexivity|]. split; [exact Hl|]. discriminate.
      * exact Hf.
  - pose proof (fill_cases s r) as Hf.
    destruct (fill s r) as [found s' r'|s' r'].
    + destruct Hf as (-> & -> & Hl). split; [reflexivity|]. split; [exact Hl|]. discriminate.
    + exact Hf.
Qed.

(** [Scan] returns: the loop bound of [Scan_loop] is never reached. *)
Lemma Scan_loop_total (fuel : nat) :
  forall (s : Scanner) (r : bytes.Buffer),
    (List.length r + (if failed s then 0 else 1) < fuel)%nat ->
    Scan_loop fuel s r <> None.
Proof.
  induction fuel as [|fuel IH]; intros s r Hfuel; [lia|].
  simpl. pose proof (turn_cases s r) as Ht.
  destruct (scan_turn s r) as [found s' r'|s' r']; [discriminate|].
  destruct Ht as (Herr & _ & Hle & Hlt).
  apply IH. unfold failed in *. rewrite Herr in Hfuel.
  destruct (err s') eqn:E; [lia|]. specialize (Hlt eq_refl). lia.
Qed.

Lemma Scan_total (s : Scanner) (r : bytes.Buffer) : Scan s r <> None.
Proof. apply Scan_loop_total. destruct (failed s); lia. Qed.

(** [Scan] never gives bytes back, and a token costs at least one. *)
Lemma Scan_loop_progress (fuel : nat) :
  forall (s : Scanner) (r : bytes.Buffer) (found : bool) (s' : Scanner) (r' : bytes.Buffer),
    Scan_loop fuel s r = Some (found, s', r') ->
    (List.length (window s') + List.length r' <= List.length (window s) + List.length r)%nat /\
    (found = true ->
     (List.length (window s') + List.length r' < List.length (window s) + List.length r)%nat).
Proof.
  induction fuel as [|fuel IH]; intros s r found s' r' HS; [discriminate|].
  simpl in HS. pose proof (turn_cases s r) as Ht.
  destruct (scan_turn s r) as [found0 s0 r0|s0 r0].
  - injection HS as -> -> ->. destruct Ht as (-> & Hle & Hlt).
    split; [lia|]. intros E. specialize (Hlt E). lia.
  - destruct Ht as (_ & Hsum & _ & _).
    destruct (IH _ _ _ _ _ HS) as [Hle Hlt]. rewrite Hsum in *. tauto.
Qed.

(** [ProcessLines] returns or panics: its loop bound is never reached. *)
Lemma ProcessLines_loop_total (fuel : nat) :
  forall (processFunc : lineFunc) (s : Scanner) (b : bytes.Buffer) (c : net.Conn),
    (List.length (window s) + List.length b < fuel)%nat ->
    fst (fst (ProcessLines_loop fuel processFunc s b c)) <> OutOfFuel.
Proof.
  induction fuel as [|fuel IH]; intros processFunc s b c Hfuel; [lia|].
  simpl. pose proof (Scan_total s b) as Htot.
  destruct (Scan s b) as [[[found s'] b']|] eqn:HS; [|congruence].
  destruct (Scan_loop_progress _ _ _ _ _ _ HS) as [Hle Hlt].
  destruct found.
  - destruct (process_line processFunc (token s') c) as [c'|res c'] eqn:Hp.
    + apply IH. specialize (Hlt eq_refl). lia.
    + simpl. unfold process_line in Hp.
      destruct (token s'); [discriminate|].
      destruct (processFunc _) as [line [e|]]; [injection Hp as <- _; discriminate|].
      destruct (net.Write c line) as [c1 [e|]]; [injection Hp as <- _; discriminate|].
      destruct (last_byte line) as [x|]; [|injection Hp as <- _; discriminate].
      destruct (negb (Byte.eqb x NL)); [|discriminate].
      destruct (net.Write c1 [NL]) as [c2 [e|]]; [injection Hp as <- _; discriminate|discriminate].
  - destruct (Err s'); simpl; discriminate.
Qed.

Theorem ProcessLines_total (processFunc : lineFunc) (s : SyslogProxy) :
  fst (ProcessLines processFunc s) <> OutOfFuel.
Proof.
  unfold ProcessLines.
  destruct (negb (IsConnected s)); [discriminate|].
  destruct (conn s) as [c|]; [|discriminate].
  destruct (net.SetWriteDeadline c); [discriminate|].
  pose proof (ProcessLines_loop_total (S (List.length (buf s))) processFunc NewScanner (buf s) c
                ltac:(simpl; lia)) as Ht.
  destruct (ProcessLines_loop _ _ _ _ _) as [[res b'] c']. exact Ht.
Qed.

(** ** Writing lines to a healthy connection *)

Lemma Write_healthy (c : net.Conn) (p : list byte) :
  healthy c ->
  exists c', net.Write c p = (c', None) /\ healthy c' /\
             net.sent c' = net.sent c ++ [p].
Proof.
  intros (Hopen & Hdl & Hf). unfold net.Write. rewrite Hopen.
  destruct (net.faults c) as [|[e|] fs] eqn:E.
  - eexists. split; [reflexivity|]. unfold healthy. simpl. auto.
  - inversion Hf; discriminate.
  - eexists. split; [reflexivity|]. unfold healthy. simpl.
    inversion Hf; auto.
Qed.

Lemma last_byte_nil_iff (l : list byte) : last_byte l = None <-> l = [].
Proof.
  unfold last_byte. split.
  - destruct (rev l) eqn:E; [|discriminate]. intros _.
    apply (f_equal (@rev byte)) in E. rewrite rev_involutive in E. exact E.
  - intros ->. reflexivity.
Qed.

(** The body of the loop on a line that the line function takes. *)
Lemma process_line_accepted (f : lineFunc) (t : list byte) (c : net.Conn) :
  healthy c -> accepts f t ->
  exists c', process_line f t c = Continue c' /\ healthy c' /\
             net.sent c' = net.sent c ++ record_of f t.
Proof.
  intros Hc [-> | [Herr Hout]].
  - exists c. simpl. rewrite app_nil_r. auto.
  - destruct t as [|x t].
    { exists c. simpl. rewrite app_nil_r. auto. }
    unfold process_line, record_of.
    destruct (f (x :: t)) as [out e]. simpl in Herr, Hout. subst e. cbn [fst].
    destruct (Write_healthy c out Hc) as (c1 & -> & Hc1 & Hs1).
    destruct (last_byte out) as [y|] eqn:El.
    2:{ apply last_byte_nil_iff in El. contradiction. }
    destruct (Byte.eqb y NL); simpl negb; cbv iota.
    + exists c1. auto.
    + destruct (Write_healthy c1 [NL] Hc1) as (c2 & -> & Hc2 & Hs2).
      exists c2. rewrite Hs2, Hs1, <- app_assoc. auto.
Qed.

Lemma length_terminated (ls : list (list byte)) :
  (List.length ls <= List.length (terminated ls))%nat.
Proof.
  induction ls as [|l ls IH]; simpl; [lia|].
  rewrite !length_app. simpl. lia.
Qed.

(** The loop over a buffer that starts with the lines [pre]: after one
    turn for each, the lines are on the wire and the scan goes on behind
    them. *)
Lemma loop_lines (f : lineFunc) (pre : list (list byte)) :
  forall (sc : Scanner) (b : bytes.Buffer) (c : net.Conn) (rest : list byte),
    wf sc -> err sc = None ->
    window sc ++ b = terminated pre ++ rest ->
    Forall scannable pre ->
    Forall (fun l => accepts f (dropCR l)) pre ->
    healthy c ->
    exists sc' b' c',
      wf sc' /\ err sc' = None /\ window sc' ++ b' = rest /\
      healthy c' /\ net.sent c' = net.sent c ++ records f pre /\
      forall fuel,
        ProcessLines_loop (List.length pre + fuel) f sc b c
        = ProcessLines_loop fuel f sc' b' c'.
Proof.
  induction pre as [|l pre IH]; intros sc b c rest Hwf Herr Hsplit Hscan Hacc Hc.
  - exists sc, b, c. simpl. rewrite app_nil_r. auto 10.
  - inversion Hscan as [|? ? [Hnl Hshort] Hscan']; subst.
    inversion Hacc as [|? ? Hl Hacc']; subst.
    simpl in Hsplit. rewrite <- !app_assoc in Hsplit. simpl in Hsplit.
    destruct (Scan_loop_line (S (S (List.length b))) sc b l (terminated pre ++ rest)
                Hwf Herr Hsplit Hnl Hshort ltac:(lia))
      as (sc1 & b1 & HS & Htok & Hwf1 & He1 & Hrest1).
    destruct (process_line_accepted f (dropCR l) c Hc Hl) as (c1 & Hp & Hc1 & Hs1).
    destruct (IH sc1 b1 c1 rest Hwf1 He1 Hrest1 Hscan' Hacc' Hc1)
      as (sc' & b' & c' & Hwf' & He' & Hrest' & Hc' & Hs' & Hloop).
    exists sc', b', c'.
    repeat (split; [assumption|]).
    split.
    { rewrite Hs', Hs1. unfold records. simpl. rewrite <- app_assoc. reflexivity. }
    intros fuel. cbn [ProcessLines_loop List.length Nat.add]. unfold Scan.
    rewrite HS, Htok, Hp. apply Hloop.
Qed.

Lemma Scan_over (s : Scanner) (r : bytes.Buffer) :
  err s = Some EOF -> window s = [] ->
  exists s', Scan s r = Some (false, s', r) /\ err s' = Some EOF.
Proof.
  intros Herr Hw. destruct (turn_over s r Herr Hw) as (s' & Ht & He').
  exists s'. unfold Scan. cbn [Scan_loop]. rewrite Ht. auto.
Qed.

(** The last turns of the loop, on what follows the last line end. *)
Lemma loop_tail (f : lineFunc) (fuel : nat) (sc : Scanner) (b : bytes.Buffer)
      (c : net.Conn) (last : list byte) :
  wf sc -> err sc = None ->
  window sc ++ b = last ->
  scannable last -> accepts f (dropCR last) ->
  healthy c ->
  (List.length last < fuel)%nat ->
  exists c',
    ProcessLines_loop fuel f sc b c = (Ret None, [], c') /\
    healthy c' /\ net.sent c' = net.sent c ++ record_of f (dropCR last).
Proof.
  intros Hwf Herr Hsplit [Hnl Hshort] Hacc Hc Hfuel.
  destruct (Scan_loop_tail (S (S (List.length b))) sc b last Hwf Herr Hsplit Hnl Hshort
              ltac:(lia)) as (sc1 & HS & Htok & He1 & Hend).
  destruct fuel as [|fuel]; [lia|].
  cbn [ProcessLines_loop]. unfold Scan at 1. rewrite HS.
  destruct last as [|x last].
  - exists c. unfold Err. rewrite He1. simpl. rewrite app_nil_r. auto.
  - rewrite (Htok ltac:(discriminate)).
    destruct (Hend ltac:(discriminate)) as [Hwf1 Hw1].
    destruct (process_line_accepted f (dropCR (x :: last)) c Hc Hacc) as (c1 & -> & Hc1 & Hs1).
    destruct fuel as [|fuel]; [simpl in Hfuel; lia|].
    destruct (Scan_over sc1 [] He1 Hw1) as (sc2 & HS2 & He2).
    exists c1. cbn [ProcessLines_loop]. rewrite HS2. unfold Err. rewrite He2. auto.
Qed.

(** [ProcessLines] on a connected proxy whose connection takes the
    deadline comes to the loop. *)
Lemma ProcessLines_connected (f : lineFunc) (s : SyslogProxy) (c : net.Conn) :
  conn s = Some c -> healthy c ->
  ProcessLines f s =
    (let '(res, b', c') :=
       ProcessLines_loop (S (List.length (buf s))) f NewScanner (buf s) c in
     (res, set_conn (set_buf s b') (Some c'))).
Proof.
  intros Hconn (Hopen & Hdl & _).
  unfold ProcessLines, IsConnected, net.SetWriteDeadline.
  rewrite Hconn, Hopen, Hdl. reflexivity.
Qed.

(** The drain that goes well: every line of the buffer, the unterminated
    last one included, is forwarded, and the buffer is left empty. *)
Lemma ProcessLines_all (f : lineFunc) (s : SyslogProxy) (c : net.Conn)
      (ls : list (list byte)) (last : list byte) :
  conn s = Some c -> healthy c ->
  buf s = terminated ls ++ last ->
  Forall scannable ls -> scannable last ->
  Forall (fun l => accepts f (dropCR l)) ls -> accepts f (dropCR last) ->
  exists c',
    ProcessLines f s = (Ret None, set_conn (set_buf s []) (Some c')) /\
    healthy c' /\
    net.sent c' = net.sent c ++ records f ls ++ record_of f (dropCR last).
Proof.
  intros Hconn Hc Hbuf Hscan Hlast Hacc Hacclast.
  rewrite (ProcessLines_connected f s c Hconn Hc).
  destruct (loop_lines f ls NewScanner (buf s) c last wf_NewScanner eq_refl Hbuf Hscan Hacc Hc)
    as (sc' & b' & c' & Hwf' & He' & Hrest' & Hc' & Hs' & Hloop).
  pose proof (length_terminated ls) as Hlen.
  assert (Hfuel : S (List.length (buf s))
                  = (List.length ls + (S (List.length (buf s)) - List.length ls))%nat).
  { rewrite Hbuf, length_app. lia. }
  rewrite Hfuel, Hloop.
  destruct (loop_tail f (S (List.length (buf s)) - List.length ls) sc' b' c' last
              Hwf' He' Hrest' Hlast Hacclast Hc')
    as (c'' & -> & Hc'' & Hs'').
  { rewrite Hbuf, length_app. lia. }
  exists c''. split; [reflexivity|]. split; [assumption|].
  rewrite Hs'', Hs', <- app_assoc. reflexivity.
Qed.

(** The drain up to a line that the loop body breaks on: the lines before
    it are forwarded, and [ProcessLines] ends as the body says. *)
Lemma ProcessLines_until (f : lineFunc) (s : SyslogProxy) (c : net.Conn)
      (pre : list (list byte)) (l rest : list byte) :
  conn s = Some c -> healthy c ->
  buf s = terminated pre ++ l ++ NL :: rest ->
  Forall scannable pre -> scannable l ->
  Forall (fun l => accepts f (dropCR l)) pre ->
  exists c1 b',
    healthy c1 /\ net.sent c1 = net.sent c ++ records f pre /\
    forall res c',
      process_line f (dropCR l) c1 = Break res c' ->
      ProcessLines f s = (res, set_conn (set_buf s b') (Some c')).
Proof.
  intros Hconn Hc Hbuf Hscan [Hnl Hshort] Hacc.
  destruct (loop_lines f pre NewScanner (buf s) c (l ++ NL :: rest)
              wf_NewScanner eq_refl Hbuf Hscan Hacc Hc)
    as (sc' & b' & c' & Hwf' & He' & Hrest' & Hc' & Hs' & Hloop).
  destruct (Scan_loop_line (S (S (List.length b'))) sc' b' l rest
              Hwf' He' Hrest' Hnl Hshort ltac:(lia))
    as (sc1 & b1 & HS & Htok & Hwf1 & He1 & Hrest1).
  exists c', b1. split; [assumption|]. split; [assumption|].
  intros res c'' Hbreak.
  rewrite (ProcessLines_connected f s c Hconn Hc).
  pose proof (length_terminated pre) as Hlen.
  assert (Hfuel : S (List.length (buf s))
                  = (List.length pre + S (List.length (buf s) - List.length pre))%nat).
  { rewrite Hbuf, length_app. lia. }
  rewrite Hfuel, Hloop.
  cbn [ProcessLines_loop]. unfold Scan. rewrite HS, Htok, Hbreak. reflexivity.
Qed.

(** ** The index into the processed line *)

Lemma process_line_no_panic (f : lineFunc) (t : list byte) (c : net.Conn) :
  never_empty f ->
  forall msg c', process_line f t c <> Break (Panic msg) c'.
Proof.
  intros Hf msg c'. unfold process_line.
  destruct t as [|x t]; [discriminate|].
  specialize (Hf (x :: t) ltac:(discriminate)).
  destruct (f (x :: t)) as [out [e|]]; [discriminate|].
  specialize (Hf eq_refl). simpl in Hf.
  destruct (net.Write c out) as [c1 [e|]]; [discriminate|].
  destruct (last_byte out) as [y|] eqn:El.
  - destruct (negb (Byte.eqb y NL)); [|discriminate].
    destruct (net.Write c1 [NL]) as [c2 [e|]]; discriminate.
  - apply last_byte_nil_iff in El. contradiction.
Qed.

Lemma loop_no_panic (f : lineFunc) (fuel : nat) :
  never_empty f ->
  forall (sc : Scanner) (b : bytes.Buffer) (c : net.Conn) (msg : string),
    fst (fst (ProcessLines_loop fuel f sc b c)) <> Panic msg.
Proof.
  intros Hf. induction fuel as [|fuel IH]; intros sc b c msg; [discriminate|].
  cbn [ProcessLines_loop].
  destruct (Scan sc b) as [[[[] sc'] b']|]; [| |discriminate].
  - pose proof (process_line_no_panic f (token sc') c Hf msg) as Hp.
    destruct (process_line f (token sc') c) as [c'|res c']; [apply IH|].
    simpl. intros ->. apply (Hp c'). reflexivity.
  - destruct (Err sc'); discriminate.
Qed.

Lemma terminated_app (ls ms : list (list byte)) :
  terminated (ls ++ ms) = terminated ls ++ terminated ms.
Proof. unfold terminated. apply flat_map_app. Qed.


(** ** One record, one line *)

Lemma frames_from_line (l cur : list byte) :
  ~ In NL l -> frames_from cur (l ++ [NL]) = [cur ++ l ++ [NL]].
Proof.
  revert cur. induction l as [|x l IH]; intros cur Hnl.
  - reflexivity.
  - simpl. destruct (Byte.eqb x NL) eqn:E.
    + apply Byte.byte_dec_bl in E. subst. simpl in Hnl. tauto.
    + rewrite IH by (simpl in Hnl; tauto). rewrite <- app_assoc. reflexivity.
Qed.

Lemma last_byte_app (l : list byte) (x : byte) : last_byte (l ++ [x]) = Some x.
Proof. unfold last_byte. rewrite rev_app_distr. reflexivity. Qed.

Lemma last_byte_split (l : list byte) (x : byte) :
  last_byte l = Some x -> l = removelast l ++ [x].
Proof.
  unfold last_byte. intros H.
  destruct (rev l) as [|y r] eqn:E; [discriminate|]. injection H as ->.
  apply (f_equal (@rev byte)) in E. rewrite rev_involutive in E. simpl in E.
  rewrite E, removelast_last. reflexivity.
Qed.

(** The bytes of a record end with a line end; it is the one of the
    processed line, or else the one appended to it. *)
Lemma record_terminated (f : lineFunc) (t : list byte) :
  t <> [] -> fst (f t) <> [] ->
  (last_byte (fst (f t)) = Some NL -> record_of f t = [fst (f t)]) /\
  (last_byte (fst (f t)) <> Some NL -> record_of f t = [fst (f t); [NL]]) /\
  last_byte (List.concat (record_of f t)) = Some NL.
Proof.
  intros Ht Hout. unfold record_of.
  destruct t as [|x t]; [congruence|]. cbv zeta.
  destruct (last_byte (fst (f (x :: t)))) as [y|] eqn:El.
  2:{ apply last_byte_nil_iff in El. contradiction. }
  destruct (Byte.eqb y NL) eqn:E.
  - apply Byte.byte_dec_bl in E. subst y.
    split; [reflexivity|]. split; [congruence|].
    simpl. rewrite app_nil_r. exact El.
  - split; [intros H; injection H as ->; rewrite (Byte.byte_dec_lb eq_refl) in E; discriminate|].
    split; [reflexivity|].
    simpl. apply last_byte_app.
Qed.

(** A record whose processed line has no line end before its last byte
    is exactly one line of the wire. *)
Lemma record_one_frame (f : lineFunc) (t : list byte) :
  t <> [] -> fst (f t) <> [] -> ~ In NL (removelast (fst (f t))) ->
  frames (List.concat (record_of f t)) = [List.concat (record_of f t)].
Proof.
  intros Ht Hout Hinner. unfold record_of, frames.
  destruct t as [|x t]; [congruence|]. cbv zeta.
  destruct (last_byte (fst (f (x :: t)))) as [y|] eqn:El.
  2:{ apply last_byte_nil_iff in El. contradiction. }
  pose proof (last_byte_split _ _ El) as Hsplit.
  destruct (Byte.eqb y NL) eqn:E.
  - apply Byte.byte_dec_bl in E. subst y.
    simpl. rewrite app_nil_r. rewrite Hsplit.
    apply (frames_from_line _ [] Hinner).
  - simpl.
    apply (frames_from_line (fst (f (x :: t))) []).
    rewrite Hsplit. intros Hin. apply in_app_or in Hin. destruct Hin as [Hin|Hin]; [tauto|].
    simpl in Hin. destruct Hin as [->|[]].
    rewrite (Byte.byte_dec_lb eq_refl) in E. discriminate.
Qed.

(** * The properties of the specification *)

(** A line of 64 KiB is more than the scanner takes: the drain ends with
    the processing error, whatever the line function. *)
Example long_line_is_an_error :
  fst (ProcessLines identity (proxy_with (long_line ++ [NL]) (Some udp514)))
  = Ret (Some (wrap ErrSyslogProcessHandleResult (scan_error_value ErrTooLong))).
Proof. vm_compute. reflexivity. Qed.

Ltac close_scannable :=
  split; [ simpl; intuition discriminate | vm_compute; reflexivity ].

Ltac close_healthy :=
  repeat split; simpl; auto.

(** ** Draining while disconnected *)

(** C6: calling [ProcessLines] while the proxy is not connected returns
    the connection error "not connected" and leaves the proxy, its buffer
    included, as it was, whatever the buffer holds and whatever the line
    function is. *)
Theorem C6_drain_disconnected (f : lineFunc) (s : SyslogProxy) :
  IsConnected s = false ->
  ProcessLines f s = (Ret (Some errNotConnected), s) /\
  errors_Is errNotConnected ErrSyslogConnection = true /\
  buf (snd (ProcessLines f s)) = buf s.
Proof.
  intros Hdis. unfold ProcessLines. rewrite Hdis. simpl. auto.
Qed.

Lemma C6_drain_disconnected_witness :
  IsConnected (proxy_with (B "a" ++ [NL] ++ B "b") None) = false /\
  ProcessLines identity (proxy_with (B "a" ++ [NL] ++ B "b") None)
  = (Ret (Some errNotConnected), proxy_with (B "a" ++ [NL] ++ B "b") None).
Proof.
  split; [reflexivity|].
  apply (C6_drain_disconnected identity (proxy_with (B "a" ++ [NL] ++ B "b") None)).
  reflexivity.
Defined.

(** ** The unterminated last line *)

(** C1, as the code has it: when the buffer ends in a line without a line
    end, [ProcessLines] forwards the terminated lines and then this last
    line too, with a line end appended to what the line function made of
    it; nothing is held back, the buffer is empty afterwards.  (The
    connection is healthy, the lines are shorter than the scanner's
    largest token and the line function takes them.) *)
Theorem C1_partial_line_forwarded (f : lineFunc) (s : SyslogProxy) (c : net.Conn)
        (ls : list (list byte)) (last : list byte) :
  conn s = Some c -> healthy c ->
  buf s = terminated ls ++ last -> last <> [] ->
  Forall scannable ls -> scannable last ->
  Forall (fun l => accepts f (dropCR l)) ls -> accepts f (dropCR last) ->
  exists c',
    ProcessLines f s = (Ret None, set_conn (set_buf s []) (Some c')) /\
    net.sent c' = net.sent c ++ records f ls ++ record_of f (dropCR last) /\
    buf (snd (ProcessLines f s)) = [] /\
    (dropCR last <> [] -> fst (f (dropCR last)) <> [] ->
     last_byte (List.concat (record_of f (dropCR last))) = Some NL).
Proof.
  intros Hconn Hc Hbuf Hne Hscan Hlast Hacc Hacclast.
  destruct (ProcessLines_all f s c ls last Hconn Hc Hbuf Hscan Hlast Hacc Hacclast)
    as (c' & HP & Hc' & Hs').
  exists c'. rewrite HP. repeat split; try assumption.
  intros Ht Hout. apply (record_terminated f _ Ht Hout).
Qed.

Lemma C1_partial_line_forwarded_witness :
  exists c',
    ProcessLines identity (proxy_with (B "a" ++ [NL] ++ B "b") (Some udp514))
    = (Ret None, proxy_with [] (Some c')) /\
    net.sent c' = [B "a"; [NL]; B "b"; [NL]].
Proof.
  destruct (C1_partial_line_forwarded identity
              (proxy_with (B "a" ++ [NL] ++ B "b") (Some udp514)) udp514
              [B "a"] (B "b"))
    as (c' & HP & Hs & _).
  - reflexivity.
  - close_healthy.
  - reflexivity.
  - discriminate.
  - constructor; [close_scannable | constructor].
  - close_scannable.
  - constructor; [right; split; [reflexivity | discriminate] | constructor].
  - right; split; [reflexivity | discriminate].
  - exists c'. split; [exact HP | exact Hs].
Defined.

(** C1 as stated fails: with ["a\nb"] in the buffer and the identity line
    function, the drain sends the unterminated ["b"] as well (the wire
    carries ["a\nb\n"], not ["a\n"]) and leaves nothing in the buffer
    (not ["b"]). *)
Lemma C1_partial_line_not_held_back :
  exists s' c',
    ProcessLines identity (proxy_with (B "a" ++ [NL] ++ B "b") (Some udp514)) = (Ret None, s') /\
    conn s' = Some c' /\
    wire c' = B "a" ++ [NL] ++ B "b" ++ [NL] /\ wire c' <> B "a" ++ [NL] /\
    buf s' = [] /\ buf s' <> B "b".
Proof.
  eexists. eexists.
  split; [vm_compute; reflexivity|].
  split; [reflexivity|].
  repeat split; try reflexivity; discriminate.
Qed.

(** ** Records on the wire *)

(** C7, as the code has it.  With ["a\nb\n"] in the buffer of a connected
    proxy and the identity line function, [ProcessLines] writes ["a"],
    ["\n"], ["b"], ["\n"], that is the two lines ["a\n"] and ["b\n"] in
    this order, and leaves the buffer empty.  In general each scanned
    line that is not empty gives one record: what the line function made
    of it, followed by one ['\n'] written on its own exactly when it does
    not end in one; so every record ends with a line end, and it is
    exactly one line of the wire when the processed line has no line end
    before its last byte. *)
Theorem C7_records_are_terminated (f : lineFunc) (s : SyslogProxy) (c : net.Conn)
        (ls : list (list byte)) (last : list byte) :
  conn s = Some c -> healthy c ->
  (buf s = B "a" ++ [NL] ++ B "b" ++ [NL] ->
   exists c',
     ProcessLines identity s = (Ret None, set_conn (set_buf s []) (Some c')) /\
     net.sent c' = net.sent c ++ [B "a"; [NL]; B "b"; [NL]] /\
     wire c' = wire c ++ B "a" ++ [NL] ++ B "b" ++ [NL] /\
     frames (B "a" ++ [NL] ++ B "b" ++ [NL]) = [B "a" ++ [NL]; B "b" ++ [NL]]) /\
  (buf s = terminated ls ++ last ->
   Forall scannable ls -> scannable last ->
   Forall (fun l => accepts f (dropCR l)) ls -> accepts f (dropCR last) ->
   exists c',
     ProcessLines f s = (Ret None, set_conn (set_buf s []) (Some c')) /\
     net.sent c' = net.sent c ++ records f (ls ++ [last])) /\
  (forall t, t <> [] -> fst (f t) <> [] ->
     (last_byte (fst (f t)) = Some NL -> record_of f t = [fst (f t)]) /\
     (last_byte (fst (f t)) <> Some NL -> record_of f t = [fst (f t); [NL]]) /\
     last_byte (List.concat (record_of f t)) = Some NL /\
     (~ In NL (removelast (fst (f t))) ->
      frames (List.concat (record_of f t)) = [List.concat (record_of f t)])).
Proof.
  intros Hconn Hc. split; [|split].
  - intros Hbuf.
    destruct (ProcessLines_all identity s c [B "a"; B "b"] [] Hconn Hc) as (c' & HP & _ & Hs).
    + exact Hbuf.
    + constructor; [close_scannable | constructor; [close_scannable | constructor]].
    + close_scannable.
    + constructor; [right; split; [reflexivity | discriminate] |
                    constructor; [right; split; [reflexivity | discriminate] | constructor]].
    + left. reflexivity.
    + exists c'. split; [exact HP|]. split; [exact Hs|].
      split; [|reflexivity].
      unfold wire. rewrite Hs, concat_app. reflexivity.
  - intros Hbuf Hscan Hlast Hacc Hacclast.
    destruct (ProcessLines_all f s c ls last Hconn Hc Hbuf Hscan Hlast Hacc Hacclast)
      as (c' & HP & _ & Hs).
    exists c'. split; [exact HP|].
    rewrite Hs. unfold records. rewrite flat_map_app. simpl. rewrite app_nil_r. reflexivity.
  - intros t Ht Hout.
    destruct (record_terminated f t Ht Hout) as (H1 & H2 & H3).
    repeat split; try assumption.
    apply (record_one_frame f t Ht Hout).
Qed.

Lemma C7_records_are_terminated_witness :
  (exists c',
    ProcessLines identity (proxy_with (B "a" ++ [NL] ++ B "b" ++ [NL]) (Some udp514))
    = (Ret None, proxy_with [] (Some c')) /\
    net.sent c' = [B "a"; [NL]; B "b"; [NL]]) /\
  (exists c',
    ProcessLines identity (proxy_with (B "a" ++ [CR; NL] ++ B "b") (Some udp514))
    = (Ret None, proxy_with [] (Some c')) /\
    net.sent c' = records identity [B "a" ++ [CR]; B "b"]) /\
  frames (List.concat (record_of identity (B "a"))) = [B "a" ++ [NL]].
Proof.
  split; [|split].
  - destruct (C7_records_are_terminated identity
                (proxy_with (B "a" ++ [NL] ++ B "b" ++ [NL]) (Some udp514)) udp514 [] []
                eq_refl ltac:(close_healthy)) as [Hex _].
    destruct (Hex eq_refl) as (c' & HP & Hs & _).
    exists c'. split; [exact HP | exact Hs].
  - destruct (C7_records_are_terminated identity
                (proxy_with (B "a" ++ [CR; NL] ++ B "b") (Some udp514)) udp514
                [B "a" ++ [CR]] (B "b")
                eq_refl ltac:(close_healthy)) as (_ & Hall & _).
    destruct Hall as (c' & HP & Hs).
    + reflexivity.
    + constructor; [close_scannable | constructor].
    + close_scannable.
    + constructor; [right; split; [reflexivity | discriminate] | constructor].
    + right; split; [reflexivity | discriminate].
    + exists c'. split; [exact HP | exact Hs].
  - destruct (C7_records_are_terminated identity
                (proxy_with [] (Some udp514)) udp514 [] []
                eq_refl ltac:(close_healthy)) as (_ & _ & Hrec).
    destruct (Hrec (B "a") ltac:(discriminate) ltac:(discriminate)) as (_ & _ & _ & Hone).
    apply Hone. simpl. tauto.
Defined.

(** C7 as stated fails for a line function that puts a line end inside
    its answer: the single record made for the line ["a"] is ["x\ny\n"],
    two lines of the wire. *)
Lemma C7_record_on_two_lines :
  exists s' c',
    ProcessLines two_lines (proxy_with (B "a" ++ [NL]) (Some udp514)) = (Ret None, s') /\
    conn s' = Some c' /\
    net.sent c' = record_of two_lines (B "a") /\
    frames (wire c') = [B "x" ++ [NL]; B "y" ++ [NL]].
Proof.
  eexists. eexists.
  split; [vm_compute; reflexivity|].
  split; [reflexivity|].
  split; reflexivity.
Qed.

(** ** An error of the line function *)



(** ** The index into an empty processed line *)

(** C4: [ProcessLines] indexes the last byte of the processed line without
    looking at its length.  With a line function that never answers a
    non-empty line with no bytes and no error, [ProcessLines] does not
    panic; with one that answers a line [l] of the buffer so (the lines
    [pre] before it being taken), [ProcessLines] writes the empty line and
    panics on the index, it does not return an error. *)
Theorem C4_empty_line_panics (f : lineFunc) (s : SyslogProxy) :
  (never_empty f -> forall msg, fst (ProcessLines f s) <> Panic msg) /\
  (forall (c : net.Conn) (pre : list (list byte)) (l rest : list byte),
     conn s = Some c -> healthy c ->
     buf s = terminated pre ++ l ++ NL :: rest ->
     Forall scannable pre -> scannable l ->
     Forall (fun l => accepts f (dropCR l)) pre ->
     dropCR l <> [] -> f (dropCR l) = ([], None) ->
     exists s' c',
       ProcessLines f s = (Panic indexPanic, s') /\
       conn s' = Some c' /\
       net.sent c' = net.sent c ++ records f pre ++ [[]]).
Proof.
  split.
  - intros Hf msg. unfold ProcessLines.
    destruct (negb (IsConnected s)) eqn:Econn; [discriminate|].
    destruct (conn s) as [c|] eqn:Hconn.
    2:{ unfold IsConnected in Econn. rewrite Hconn in Econn. discriminate. }
    destruct (net.SetWriteDeadline c); [discriminate|].
    pose proof (loop_no_panic f (S (List.length (buf s))) Hf NewScanner (buf s) c msg) as Hl.
    destruct (ProcessLines_loop _ _ _ _ _) as [[res b'] c']. exact Hl.
  - intros c pre l rest Hconn Hc Hbuf Hscan Hl Hacc Hne Hempty.
    destruct (ProcessLines_until f s c pre l rest Hconn Hc Hbuf Hscan Hl Hacc)
      as (c1 & b' & Hc1 & Hs1 & Hbreak).
    destruct (Write_healthy c1 [] Hc1) as (c2 & Hw & Hc2 & Hs2).
    exists (set_conn (set_buf s b') (Some c2)), c2.
    split; [|split; [reflexivity | rewrite Hs2, Hs1, <- app_assoc; reflexivity]].
    apply Hbreak. unfold process_line.
    destruct (dropCR l) as [|x t]; [congruence|].
    rewrite Hempty, Hw. reflexivity.
Qed.

Lemma C4_empty_line_panics_witness :
  (forall msg,
      fst (ProcessLines identity (proxy_with (B "a" ++ [NL]) (Some udp514))) <> Panic msg) /\
  exists s' c',
    ProcessLines erase (proxy_with (B "a" ++ [NL]) (Some udp514)) = (Panic indexPanic, s') /\
    conn s' = Some c' /\
    net.sent c' = [[]].
Proof.
  split.
  { apply (proj1 (C4_empty_line_panics identity (proxy_with (B "a" ++ [NL]) (Some udp514)))).
    intros t Ht _. exact Ht. }
  apply (proj2 (C4_empty_line_panics erase (proxy_with (B "a" ++ [NL]) (Some udp514)))
           udp514 [] (B "a") []).
  - reflexivity.
  - close_healthy.
  - reflexivity.
  - constructor.
  - close_scannable.
  - constructor.
  - discriminate.
  - reflexivity.
Defined.

(** ** Handling a record while disconnected *)

(** C8: [Handle] on a handler whose proxy is not connected returns the
    connection error "not connected" at once: the world is as before, so
    the mutex has not been acquired and the downstream handler has not
    been called. *)
Theorem C8_handle_disconnected {H : Type} {DH : slog.Handler H}
        (h : SyslogHandler) (r : slog.Record_) (w : World H) :
  IsConnected (proxy w) = false ->
  Handle h r w = (Ret (Some errNotConnected), w) /\
  errors_Is errNotConnected ErrSyslogConnection = true /\
  handled (snd (Handle h r w)) = handled w /\
  downstream (snd (Handle h r w)) = downstream w /\
  mu (proxy (snd (Handle h r w))) = mu (proxy w).
Proof.
  intros Hdis. unfold Handle. rewrite Hdis. simpl. auto 6.
Qed.

Lemma C8_handle_disconnected_witness :
  Handle (mkSyslogHandler 0 identity) (slog.mkRecord 0 "hello")
         (mkWorld (proxy_with [] None) (mkStub 0 None) 0)
  = (Ret (Some errNotConnected), mkWorld (proxy_with [] None) (mkStub 0 None) 0).
Proof.
  apply (C8_handle_disconnected (mkSyslogHandler 0 identity) (slog.mkRecord 0 "hello")
           (mkWorld (proxy_with [] None) (mkStub 0 None) 0)).
  reflexivity.
Defined.

(** On a connected proxy the same call locks, renders and drains: both
    counters move. *)
Example Handle_connected :
  exists w',
    Handle (mkSyslogHandler 0 identity) (slog.mkRecord 0 "hello")
           (mkWorld (proxy_with [] (Some udp514)) (mkStub 0 None) 0) = (Ret None, w') /\
    handled w' = 1%nat /\ mu (proxy w') = sync.mkMutex false 1 /\
    option_map wire (conn (proxy w')) = Some (B "hello" ++ [NL]).
Proof. eexists. split; [vm_compute; reflexivity|]. repeat split. Qed.

(** ** The level of the handler *)

Lemma probe_none {H : Type} {DH : slog.Handler H} (d : H) (levels : list slog.Level)
      (lvl0 : slog.Level) :
  Forall (fun x => slog.Enabled d x = false) levels -> probe d levels lvl0 = lvl0.
Proof.
  induction 1 as [|x levels Hx _ IH]; simpl; [reflexivity|]. rewrite Hx. exact IH.
Qed.

Lemma probe_first {H : Type} {DH : slog.Handler H} (d : H)
      (pre post : list slog.Level) (l lvl0 : slog.Level) :
  Forall (fun x => slog.Enabled d x = false) pre -> slog.Enabled d l = true ->
  probe d (pre ++ l :: post) lvl0 = l.
Proof.
  induction 1 as [|x pre Hx _ IH]; simpl; intros Hl.
  - rewrite Hl. reflexivity.
  - rewrite Hx. apply IH, Hl.
Qed.

Lemma probe_sorted {H : Type} {DH : slog.Handler H} (d : H) (levels : list slog.Level)
      (lvl0 : slog.Level) :
  StronglySorted Z.le levels ->
  forall l, In l levels -> slog.Enabled d l = true ->
            slog.Enabled d (probe d levels lvl0) = true /\ probe d levels lvl0 <= l.
Proof.
  induction 1 as [|x levels _ IH Hx]; intros l Hin Hl; [destruct Hin|].
  simpl. destruct (slog.Enabled d x) eqn:Ex.
  - split; [exact Ex|]. destruct Hin as [->|Hin]; [lia|].
    rewrite Forall_forall in Hx. apply Hx, Hin.
  - destruct Hin as [->|Hin]; [congruence|]. apply IH; assumption.
Qed.

(** C2, as the code has it: the level cached by [NewSyslogHandler] is the
    first level of [allowedLevels], in the order of the list, that the
    downstream handler reports enabled at that moment, and zero when it
    reports none of the list enabled; when the list is in ascending order
    this is the lowest level of the list reported enabled.  [Enabled]
    answers [level >= h.level] in any later world, whatever the
    downstream handler has become. *)
Theorem C2_level_is_first_enabled (Ext : Externals) {H : Type} {DH : slog.Handler H}
        (w w' : World H) (opts : option SyslogHandlerOptions) (lvl : slog.Level) :
  let h := NewSyslogHandler w opts in
  (forall pre l post,
      allowedLevels = pre ++ l :: post ->
      Forall (fun x => slog.Enabled (downstream w) x = false) pre ->
      slog.Enabled (downstream w) l = true ->
      level h = l) /\
  (Forall (fun x => slog.Enabled (downstream w) x = false) allowedLevels -> level h = 0) /\
  (StronglySorted Z.le allowedLevels ->
   forall l, In l allowedLevels -> slog.Enabled (downstream w) l = true ->
             slog.Enabled (downstream w) (level h) = true /\ level h <= l) /\
  Enabled w' h lvl = (lvl >=? level h) /\
  (Enabled w' h lvl = true <-> lvl >= level h).
Proof.
  intros h. unfold h, NewSyslogHandler, Enabled. cbn [level].
  split; [|split; [|split; [|split]]].
  - intros pre l post -> Hpre Hl. apply probe_first; assumption.
  - apply probe_none.
  - apply probe_sorted.
  - reflexivity.
  - rewrite Z.geb_leb, Z.leb_le. lia.
Qed.

Lemma C2_level_is_first_enabled_witness :
  level (@NewSyslogHandler online Stub _
           (mkWorld (proxy_with [] None) (mkStub 4 None) 0) None) = 4 /\
  (forall lvl,
    @Enabled Stub (mkWorld (proxy_with [] None) (mkStub (-4) None) 0)
             (@NewSyslogHandler online Stub _
                (mkWorld (proxy_with [] None) (mkStub 4 None) 0) None) lvl
    = (lvl >=? 4)) /\
  level (@NewSyslogHandler online Stub _
           (mkWorld (proxy_with [] None) (mkStub 4 None) 0) None) <= 8.
Proof.
  split; [|split].
  - apply (proj1 (C2_level_is_first_enabled online
                    (mkWorld (proxy_with [] None) (mkStub 4 None) 0)
                    (mkWorld (proxy_with [] None) (mkStub (-4) None) 0) None 0)
                 [-4; 0] 4 [8]).
    + reflexivity.
    + repeat constructor.
    + reflexivity.
  - intros lvl.
    exact (proj1 (proj2 (proj2 (proj2
             (C2_level_is_first_enabled online
                (mkWorld (proxy_with [] None) (mkStub 4 None) 0)
                (mkWorld (proxy_with [] None) (mkStub (-4) None) 0) None lvl))))).
  - apply (proj1 (proj2 (proj2
             (C2_level_is_first_enabled online
                (mkWorld (proxy_with [] None) (mkStub 4 None) 0)
                (mkWorld (proxy_with [] None) (mkStub (-4) None) 0) None 0)))).
    + repeat constructor; discriminate.
    + simpl. auto.
    + reflexivity.
Defined.

(** With the four levels of [log/slog] in the list, a downstream handler
    that starts at a level of its own between two of them is given the
    next level of the list. *)
Example level_between_two :
  level (@NewSyslogHandler online Stub _
           (mkWorld (proxy_with [] None) (mkStub 2 None) 0) None) = 4.
Proof. reflexivity. Qed.

Lemma above_all (levels : list slog.Level) :
  Forall (fun x => x < 1 + fold_right Z.max 0 levels) levels /\
  0 < 1 + fold_right Z.max 0 levels.
Proof.
  induction levels as [|x levels [IH1 IH2]]; cbn [fold_right]; [split; [constructor | lia]|].
  split; [|lia]. constructor; [lia|].
  eapply Forall_impl; [|exact IH1]. cbv beta. intros y Hy. lia.
Qed.

(** C2 as stated fails whatever [allowedLevels] is: a downstream handler
    whose lowest enabled level lies above every level of the list (and
    above zero) is given the level zero, which it does not report
    enabled. *)
Lemma C2_level_not_lowest_enabled :
  ~ exists Ext : Externals,
      forall w : World Stub,
        lowest_enabled (downstream w) (level (@NewSyslogHandler Ext Stub _ w None)).
Proof.
  intros [Ext Hclaim].
  destruct (above_all allowedLevels) as [Hall Hpos].
  set (m := 1 + fold_right Z.max 0 allowedLevels) in *.
  specialize (Hclaim (mkWorld (proxy_with [] None) (mkStub m None) 0)).
  destruct Hclaim as [Hlow _].
  destruct Hlow as [Hen _].
  { exists m. simpl. apply Z.leb_refl. }
  unfold NewSyslogHandler in Hen. cbn [level downstream] in Hen.
  rewrite probe_none in Hen.
  - simpl in Hen. apply Z.leb_le in Hen. lia.
  - eapply Forall_impl; [|exact Hall]. simpl. intros x Hx. apply Z.leb_gt. exact Hx.
Qed.

(** ** The defaults of the proxy *)

(** C3, as the code has it: [NewSyslogProxy] replaces a priority that is
    out of range (negative, or above [LOG_LOCAL7|LOG_DEBUG]) by
    [LOG_INFO|LOG_USER] and keeps any priority in range, the unset
    priority zero ([LOG_KERN|LOG_EMERG]) included; an unset tag becomes
    the first command-line argument, a set one is kept. *)
Theorem C3_priority_and_tag_defaults (Ext : Externals)
        (opts : option SyslogProxyOptions) (s : SyslogProxy) :
  NewSyslogProxy opts = Ret s ->
  (Priority (options_of opts) < 0 \/
   Z.lor logSyslog.LOG_LOCAL7 logSyslog.LOG_DEBUG < Priority (options_of opts) ->
   priority s = Z.lor logSyslog.LOG_INFO logSyslog.LOG_USER) /\
  (0 <= Priority (options_of opts) <= Z.lor logSyslog.LOG_LOCAL7 logSyslog.LOG_DEBUG ->
   priority s = Priority (options_of opts)) /\
  (Priority (options_of opts) = 0 -> priority s = 0) /\
  (Tag (options_of opts) = "" -> nth_error os_Args 0 = Some (tag s)) /\
  (Tag (options_of opts) <> "" -> tag s = Tag (options_of opts)).
Proof.
  unfold NewSyslogProxy. fold (options_of opts).
  set (o := options_of opts).
  change (Z.lor logSyslog.LOG_LOCAL7 logSyslog.LOG_DEBUG) with 191.
  change (Z.lor logSyslog.LOG_INFO logSyslog.LOG_USER) with 14.
  intros HN.
  destruct (if String.eqb (Tag o) "" then nth_error os_Args 0 else Some (Tag o))
    as [tag0|] eqn:Etag; [|discriminate].
  destruct ((if IOBufSize o =? 0 then InitialIOBufSize else IOBufSize o) <? 0);
    [discriminate|].
  destruct ((if LineProcessBufSize o =? 0 then InitialLineProcessBufSize
             else LineProcessBufSize o) <? 0); [discriminate|].
  injection HN as <-. cbn [priority tag].
  assert (Hprio :
            (Priority o < 0 \/ 191 < Priority o ->
             (if (Priority o <? 0) || (191 <? Priority o) then 14 else Priority o) = 14) /\
            (0 <= Priority o <= 191 ->
             (if (Priority o <? 0) || (191 <? Priority o) then 14 else Priority o) = Priority o)).
  { destruct (Priority o <? 0) eqn:E1; destruct (191 <? Priority o) eqn:E2; simpl;
      split; intros; try reflexivity; lia. }
  destruct Hprio as [Hout Hin].
  split; [exact Hout|]. split; [exact Hin|].
  split; [intros E0; rewrite Hin by lia; exact E0|].
  destruct (String.eqb (Tag o) "") eqn:E.
  - apply String.eqb_eq in E. split; [intros _; exact Etag | congruence].
  - apply String.eqb_neq in E. injection Etag as <-. split; [congruence | reflexivity].
Qed.

Lemma C3_priority_and_tag_defaults_witness :
  exists s,
    @NewSyslogProxy online (Some (mkSyslogProxyOptions false (-1) "" 0 0)) = Ret s /\
    priority s = 14 /\ tag s = "/usr/bin/app".
Proof.
  eexists. split; [reflexivity|].
  destruct (C3_priority_and_tag_defaults online
              (Some (mkSyslogProxyOptions false (-1) "" 0 0)) _ eq_refl)
    as (Hout & _ & _ & Htag & _).
  split.
  - apply Hout. left. reflexivity.
  - specialize (Htag eq_refl). symmetry in Htag.
    exact (f_equal (fun t => match t with Some a => a | None => EmptyString end) Htag).
Defined.

(** C3 as stated fails for the priority: with every option unset the
    proxy is made with the priority zero, not with [LOG_INFO|LOG_USER]. *)
Lemma C3_unset_priority_stays_zero :
  exists s,
    @NewSyslogProxy online None = Ret s /\
    Priority (options_of None) = 0 /\
    priority s = 0 /\
    priority s <> Z.lor logSyslog.LOG_INFO logSyslog.LOG_USER.
Proof.
  eexists. split; [reflexivity|]. repeat split. discriminate.
Qed.

(** ** Connecting *)

Lemma slices_Index_In (l : list string) (v : string) :
  slices_Index l v <> -1 -> In v l.
Proof.
  induction l as [|x l IH]; simpl; [congruence|].
  destruct (String.eqb x v) eqn:E.
  - apply String.eqb_eq in E. auto.
  - destruct (slices_Index l v <? 0) eqn:E'; [congruence|].
    intros _. right. apply IH. lia.
Qed.

(** The ways out of [Connect]. *)
Lemma Connect_cases (Ext : Externals) (url0 : string) (timeout0 : Z) (now : nat)
      (s : SyslogProxy) :
  (exists err,
      url_Parse (destination url0 s) = inr err /\
      Connect url0 timeout0 now s =
        (Ret (Some (Errorf "%w: URL `%s` is wrong: %w"
                           [ArgW (Sentinel ErrSyslogURLparse); ArgS (destination url0 s);
                            ArgW err])), s)) \/
  (exists u,
      url_Parse (destination url0 s) = inl u /\
      slices_Index allowedProto (netURL.Scheme u) = -1 /\
      Connect url0 timeout0 now s =
        (Ret (Some (Errorf "%w: URL `%s` is wrong: unsupported proto '%s', allowed only %v"
                           [ArgW (Sentinel ErrSyslogURLparse); ArgS (destination url0 s);
                            ArgS (netURL.Scheme u); ArgV allowedProto])), s)) \/
  (exists u,
      url_Parse (destination url0 s) = inl u /\
      In (netURL.Scheme u) allowedProto /\
      match net_DialTimeout now (netURL.Scheme u) (address_of u) (dial_timeout timeout0) with
      | inr err =>
          Connect url0 timeout0 now s
          = (Ret (Some (wrap ErrSyslogConnection err)), set_url s (stored u))
      | inl c =>
          if sync.locked (mu s)
          then Connect url0 timeout0 now s = (Block, set_url s (stored u))
          else Connect url0 timeout0 now s
               = (Ret None,
                  mkSyslogProxy (buf s) (lineProcessBuf s) (priority s) (tag s) (stored u)
                                (Some c) (useLocalTZ s) (dial_timeout timeout0)
                                (sync.mkMutex false (S (sync.acquired (mu s)))))
      end).
Proof.
  unfold Connect. fold (destination url0 s).
  destruct (url_Parse (destination url0 s)) as [u|err] eqn:Eparse.
  2:{ left. exists err. auto. }
  right.
  destruct (slices_Index allowedProto (netURL.Scheme u) =? -1) eqn:Escheme.
  { left. exists u. apply Z.eqb_eq in Escheme. auto. }
  right. exists u. apply Z.eqb_neq in Escheme.
  split; [reflexivity|]. split; [apply slices_Index_In, Escheme|].
  fold (address_of u). fold (stored u). fold (dial_timeout timeout0).
  destruct (net_DialTimeout now (netURL.Scheme u) (address_of u) (dial_timeout timeout0))
    as [c|err]; [|reflexivity].
  unfold Lock, sync.Lock. cbn [mu set_url].
  destruct (sync.locked (mu s)); [reflexivity|].
  cbn [option_map]. unfold Disconnect. cbn.
  destruct (conn s); reflexivity.
Qed.

(** C9: a call of [Connect] that returns an error leaves the connection
    of the proxy as it was: the same connection is installed, in the same
    state (open if it was open), or none if there was none.  The error is
    the URL error when the destination does not parse or names a protocol
    other than tcp, udp and unix, in which case nothing at all has
    changed; it is the connection error when dialling fails, in which
    case only the stored destination has changed. *)
Theorem C9_failed_connect_keeps_connection (Ext : Externals)
        (url0 : string) (timeout0 : Z) (now : nat) (s s' : SyslogProxy) (e : error) :
  Connect url0 timeout0 now s = (Ret (Some e), s') ->
  conn s' = conn s /\ IsConnected s' = IsConnected s /\
  mu s' = mu s /\ timeout s' = timeout s /\
  ((errors_Is e ErrSyslogURLparse = true /\ s' = s /\
    forall u, url_Parse (destination url0 s) = inl u ->
              slices_Index allowedProto (netURL.Scheme u) = -1) \/
   (errors_Is e ErrSyslogConnection = true /\
    exists u err,
      url_Parse (destination url0 s) = inl u /\
      net_DialTimeout now (netURL.Scheme u) (address_of u) (dial_timeout timeout0) = inr err /\
      s' = set_url s (stored u))).
Proof.
  intros HC.
  destruct (Connect_cases Ext url0 timeout0 now s)
    as [(err & Hp & HC') | [(u & Hp & Hs & HC') | (u & Hp & Hs & HC')]].
  - rewrite HC' in HC. injection HC as <- <-.
    repeat split. left. repeat split. intros u Hu. congruence.
  - rewrite HC' in HC. injection HC as <- <-.
    repeat split. left. repeat split. intros u' Hu. congruence.
  - destruct (net_DialTimeout now (netURL.Scheme u) (address_of u) (dial_timeout timeout0))
      as [c|err] eqn:Ed.
    + destruct (sync.locked (mu s)); rewrite HC' in HC; discriminate.
    + rewrite HC' in HC. injection HC as <- <-.
      repeat split. right. split; [reflexivity|]. exists u, err. auto.
Qed.

Lemma C9_failed_connect_keeps_connection_witness :
  exists e s',
    @Connect offline "tcp://1.2.3.4:514" 0 0 (proxy_with (B "a") (Some udp514)) = (Ret (Some e), s') /\
    conn s' = Some udp514 /\ errors_Is e ErrSyslogConnection = true.
Proof.
  eexists. eexists. split; [reflexivity|].
  destruct (C9_failed_connect_keeps_connection offline "tcp://1.2.3.4:514" 0 0
              (proxy_with (B "a") (Some udp514)) _ _ eq_refl) as (Hconn & _).
  split; [exact Hconn | reflexivity].
Defined.

(** The unsupported scheme of the specification's example. *)
Example Connect_http :
  exists e,
    @Connect online "http://x" 0 0 (proxy_with (B "a") (Some udp514))
    = (Ret (Some e), proxy_with (B "a") (Some udp514)) /\
    errors_Is e ErrSyslogURLparse = true.
Proof. eexists. split; reflexivity. Qed.

(** What [Connect] stores: a call that succeeds has parsed the
    destination into a URL [u] with a scheme among tcp, udp and unix,
    stores exactly [scheme://address] (the path for unix, the host with
    its port otherwise) and is connected to what dialling this scheme and
    address gave.  A later [Connect("")] does what [Connect] of the stored
    string does: it parses the stored string again, and comes back to the
    same scheme and address only if the parser reads them back from the
    stored string. *)
Theorem Connect_stores_destination (Ext : Externals)
        (url0 : string) (timeout0 : Z) (now : nat) (s s1 : SyslogProxy) :
  Connect url0 timeout0 now s = (Ret None, s1) ->
  exists u c,
    url_Parse (destination url0 s) = inl u /\
    In (netURL.Scheme u) ["tcp"; "udp"; "unix"] /\
    url s1 = stored u /\
    net_DialTimeout now (netURL.Scheme u) (address_of u) (dial_timeout timeout0) = inl c /\
    conn s1 = Some c /\
    forall (timeout1 : Z) (now1 : nat),
      Connect "" timeout1 now1 s1 = Connect (url s1) timeout1 now1 s1 /\
      (forall u1,
          url_Parse (url s1) = inl u1 ->
          netURL.Scheme u1 = netURL.Scheme u -> address_of u1 = address_of u ->
          match net_DialTimeout now1 (netURL.Scheme u) (address_of u) (dial_timeout timeout1) with
          | inr err =>
              Connect "" timeout1 now1 s1 = (Ret (Some (wrap ErrSyslogConnection err)), s1)
          | inl c1 =>
              exists s2, Connect "" timeout1 now1 s1 = (Ret None, s2) /\
                         conn s2 = Some c1 /\ url s2 = url s1
          end).
Proof.
  intros HC.
  destruct (Connect_cases Ext url0 timeout0 now s)
    as [(err & Hp & HC') | [(u & Hp & Hs & HC') | (u & Hp & Hs & HC')]];
    try (rewrite HC' in HC; discriminate).
  destruct (net_DialTimeout now (netURL.Scheme u) (address_of u) (dial_timeout timeout0))
    as [c|err] eqn:Ed; [|rewrite HC' in HC; discriminate].
  destruct (sync.locked (mu s)) eqn:El; rewrite HC' in HC; [discriminate|].
  injection HC as <-.
  exists u, c. cbn [url conn].
  repeat (split; [first [assumption | reflexivity]|]).
  intros timeout1 now1.
  split.
  { unfold Connect. cbn [url]. simpl (String.eqb "" "").
    destruct (String.eqb (stored u) ""); reflexivity. }
  intros u1 Hp1 Hscheme Haddr.
  match goal with |- context [Connect "" timeout1 now1 ?s] => set (s1 := s) end.
  assert (Hdest : destination "" s1 = stored u) by reflexivity.
  destruct (Connect_cases Ext "" timeout1 now1 s1)
    as [(err & Hp' & _) | [(u' & Hp' & Hs' & _) | (u' & Hp' & Hs' & HC1)]];
    rewrite Hdest in Hp'; cbn [url] in Hp1; rewrite Hp1 in Hp'.
  - discriminate.
  - injection Hp' as <-. rewrite Hscheme in Hs'.
    exfalso. clear - Hs Hs'. simpl in Hs.
    destruct Hs as [E|[E|[E|[]]]]; rewrite <- E in Hs'; discriminate.
  - injection Hp' as <-.
    assert (Hst : stored u1 = stored u) by (unfold stored; rewrite Hscheme, Haddr; reflexivity).
    rewrite Hscheme, Haddr, Hst in HC1.
    destruct (net_DialTimeout now1 (netURL.Scheme u) (address_of u) (dial_timeout timeout1))
      as [c1|err].
    + cbn [mu sync.locked] in HC1. eexists. split; [exact HC1|]. split; reflexivity.
    + rewrite HC1. reflexivity.
Qed.

Lemma Connect_stores_destination_example :
  exists s1 s2,
    @Connect online "udp://1.2.3.4:514" 0 0 (proxy_with [] None) = (Ret None, s1) /\
    url s1 = "udp://1.2.3.4:514" /\
    @Connect online "" 0 1 s1 = (Ret None, s2) /\
    conn s2 = Some udp514 /\ url s2 = "udp://1.2.3.4:514".
Proof.
  eexists. 
  destruct (Connect_stores_destination online "udp://1.2.3.4:514" 0 0
              (proxy_with [] None) _ eq_refl)
    as (u & c & Hp & _ & Hurl & _ & _ & Hre).
  injection Hp as <-.
  destruct (Hre 0 1%nat) as [_ Hround].
  destruct (Hround _ eq_refl eq_refl eq_refl) as (s2 & HC2 & Hc2 & Hu2).
  exists s2. split; [reflexivity|].
  split; [exact Hurl|]. split; [exact HC2|]. split; [exact Hc2 | exact Hu2].
Defined.

(** C10: [Connect("")] does not reuse the destination connected to.
    [Connect] stores the address as the parser decoded it, without
    escaping it again, and [Connect("")] parses what is stored: the path
    of ["unix:///tmp/log%2541"] is ["/tmp/log%41"], so that the stored
    destination is ["unix:///tmp/log%41"], which the parser reads back as
    the path ["/tmp/logA"].  [Connect("")] then dials another address than
    the one connected to, and stores another destination. *)
Lemma C10_stored_destination_reparsed :
  exists s1 s2,
    @Connect online "unix:///tmp/log%2541" 0 0 (proxy_with [] None) = (Ret None, s1) /\
    url s1 = "unix:///tmp/log%41" /\
    option_map net.address (conn s1) = Some "/tmp/log%41" /\
    option_map address_of
      (match goURL.Parse (url s1) with inl u => Some u | inr _ => None end)
    = Some "/tmp/logA" /\
    @Connect online "" 0 1 s1 = (Ret None, s2) /\
    option_map net.address (conn s2) = Some "/tmp/logA" /\
    url s2 = "unix:///tmp/logA" /\ url s2 <> url s1.
Proof.
  eexists. eexists.
  split; [vm_compute; reflexivity|].
  split; [reflexivity|]. split; [reflexivity|]. split; [vm_compute; reflexivity|].
  split; [vm_compute; reflexivity|].
  split; [reflexivity|]. split; [reflexivity|]. discriminate.
Qed.

(** The same with the zone of an IPv6 address: what is stored after
    [Connect("udp://[fe80::1%25eth0]:514")] is no URL, and [Connect("")]
    returns the URL error; the connection stays. *)
Example Connect_zone_not_reused :
  exists s1 e,
    @Connect online "udp://[fe80::1%25eth0]:514" 0 0 (proxy_with [] None) = (Ret None, s1) /\
    url s1 = "udp://[fe80::1%eth0]:514" /\
    option_map net.address (conn s1) = Some "[fe80::1%eth0]:514" /\
    @Connect online "" 0 1 s1 = (Ret (Some e), s1) /\
    errors_Is e ErrSyslogURLparse = true.
Proof.
  eexists. eexists.
  split; [vm_compute; reflexivity|].
  split; [reflexivity|]. split; [reflexivity|].
  split; [vm_compute; reflexivity | reflexivity].
Qed.

(** * Further properties *)

(** ** What a drain leaves as it is *)

Lemma read_takes (s : Scanner) (r : bytes.Buffer) :
  exists taken, r = taken ++ snd (read s r).
Proof.
  unfold read, bytes.Read. destruct r as [|x r].
  - exists []. destruct (negb (cap s - s_end s =? 0)); reflexivity.
  - exists (slice_to (x :: r) (cap s - s_end s)).
    destruct (0 <? len (slice_to (x :: r) (cap s - s_end s)));
      cbn [snd]; symmetry; apply slice_to_from.
Qed.

Lemma fill_takes (s : Scanner) (r : bytes.Buffer) :
  exists taken,
    r = taken ++ match fill s r with Done _ _ r' => r' | Again _ r' => r' end.
Proof.
  unfold fill. destruct (err s); [exists []; reflexivity|].
  destruct (s_end (shift s) =? cap (shift s)).
  - destruct ((maxTokenSize (shift s) <=? cap (shift s)) || (maxInt / 2 <? cap (shift s)));
      [exists []; reflexivity|].
    destruct (read_takes (grow (shift s)) r) as [taken Ht].
    destruct (read (grow (shift s)) r). exists taken. exact Ht.
  - destruct (read_takes (shift s) r) as [taken Ht].
    destruct (read (shift s) r). exists taken. exact Ht.
Qed.

Lemma turn_takes (s : Scanner) (r : bytes.Buffer) :
  exists taken,
    r = taken ++ match scan_turn s r with Done _ _ r' => r' | Again _ r' => r' end.
Proof.
  unfold scan_turn.
  destruct ((0 <? len (window s)) || failed s); [|apply fill_takes].
  destruct (ScanLines (window s) (failed s)) as [adv tok].
  destruct (advance s adv) as [ok s1].
  destruct (negb ok); [exists []; reflexivity|].
  destruct tok; [exists []; reflexivity | apply fill_takes].
Qed.

(** [Scan] reads from the front of the buffer and puts nothing back. *)
Lemma Scan_loop_takes (fuel : nat) :
  forall (s : Scanner) (r : bytes.Buffer) (found : bool) (s' : Scanner) (r' : bytes.Buffer),
    Scan_loop fuel s r = Some (found, s', r') -> exists taken, r = taken ++ r'.
Proof.
  induction fuel as [|fuel IH]; intros s r found s' r' HS; [discriminate|].
  simpl in HS. destruct (turn_takes s r) as [taken Ht].
  destruct (scan_turn s r) as [found0 s0 r0|s0 r0].
  - injection HS as _ _ <-. exists taken. exact Ht.
  - destruct (IH _ _ _ _ _ HS) as [taken' Ht'].
    exists (taken ++ taken'). rewrite <- app_assoc, <- Ht'. exact Ht.
Qed.

Lemma setErr_fresh (s : Scanner) (e : scan_error) :
  err s = None -> err (setErr s e) = Some e.
Proof. intros H. unfold setErr. rewrite H. reflexivity. Qed.

(** The end of the input is only ever reported by a drained buffer. *)
Lemma read_eof_drained (s : Scanner) (r : bytes.Buffer) :
  err s = None -> err (fst (read s r)) = Some EOF -> snd (read s r) = [].
Proof.
  intros Herr. unfold read, bytes.Read. destruct r as [|x r].
  - destruct (negb (cap s - s_end s =? 0)); reflexivity.
  - destruct (0 <? len (slice_to (x :: r) (cap s - s_end s))); cbn [fst snd].
    + cbn [err]. congruence.
    + rewrite setErr_fresh by exact Herr. discriminate.
Qed.

Lemma setErr_not_eof (s : Scanner) (e : scan_error) :
  e <> EOF -> err (setErr s e) = Some EOF -> False.
Proof.
  unfold setErr. intros He.
  destruct (err s) as [[]|] eqn:E; cbn [err]; try congruence; rewrite E; discriminate.
Qed.

Lemma fill_eof_drained (s : Scanner) (r : bytes.Buffer) :
  (err s = Some EOF -> r = []) ->
  match fill s r with
  | Done _ s' r' => err s' = Some EOF -> r' = []
  | Again s' r' => err s' = Some EOF -> r' = []
  end.
Proof.
  intros Hinv. unfold fill. destruct (err s) as [e|] eqn:Herr.
  - cbn [err]. intros H. apply Hinv. congruence.
  - destruct (window_shift s) as [_ He]. rewrite Herr in He.
    destruct (s_end (shift s) =? cap (shift s)).
    + destruct ((maxTokenSize (shift s) <=? cap (shift s)) || (maxInt / 2 <? cap (shift s))).
      * intros H. exfalso. apply (setErr_not_eof _ ErrTooLong ltac:(discriminate) H).
      * pose proof (read_eof_drained (grow (shift s)) r He) as Hr.
        destruct (read (grow (shift s)) r). exact Hr.
    + pose proof (read_eof_drained (shift s) r He) as Hr.
      destruct (read (shift s) r). exact Hr.
Qed.

Lemma turn_eof_drained (s : Scanner) (r : bytes.Buffer) :
  (err s = Some EOF -> r = []) ->
  match scan_turn s r with
  | Done _ s' r' => err s' = Some EOF -> r' = []
  | Again s' r' => err s' = Some EOF -> r' = []
  end.
Proof.
  intros Hinv. unfold scan_turn.
  destruct ((0 <? len (window s)) || failed s); [|apply fill_eof_drained, Hinv].
  destruct (ScanLines (window s) (failed s)) as [adv tok].
  unfold advance.
  destruct (adv <? 0).
  { cbn [negb]. intros H. exfalso.
    apply (setErr_not_eof _ ErrNegativeAdvance ltac:(discriminate) H). }
  destruct (len (window s) <? adv).
  { cbn [negb]. intros H. exfalso.
    apply (setErr_not_eof _ ErrAdvanceTooFar ltac:(discriminate) H). }
  cbn [negb]. destruct tok as [t|].
  - exact Hinv.
  - apply fill_eof_drained. exact Hinv.
Qed.

Lemma Scan_loop_eof_drained (fuel : nat) :
  forall (s : Scanner) (r : bytes.Buffer) (found : bool) (s' : Scanner) (r' : bytes.Buffer),
    (err s = Some EOF -> r = []) ->
    Scan_loop fuel s r = Some (found, s', r') ->
    err s' = Some EOF -> r' = [].
Proof.
  induction fuel as [|fuel IH]; intros s r found s' r' Hinv HS; [discriminate|].
  simpl in HS. pose proof (turn_eof_drained s r Hinv) as Ht.
  destruct (scan_turn s r) as [found0 s0 r0|s0 r0].
  - injection HS as _ <- <-. exact Ht.
  - apply (IH _ _ _ _ _ Ht HS).
Qed.

Lemma setErr_failed (s : Scanner) (e : scan_error) : err (setErr s e) <> None.
Proof.
  unfold setErr. destruct (err s) as [[]|] eqn:E; cbn [err]; rewrite ?E; discriminate.
Qed.

(** A [Scan] that is over has an error, and no token is handed out once
    an error other than the end of the input is set. *)
Lemma fill_done_failed (s : Scanner) (r : bytes.Buffer) :
  match fill s r with
  | Done _ s' _ => err s' <> None
  | Again _ _ => True
  end.
Proof.
  unfold fill. destruct (err s) as [e|] eqn:Herr.
  - cbn [err]. congruence.
  - destruct (s_end (shift s) =? cap (shift s)).
    + destruct ((maxTokenSize (shift s) <=? cap (shift s)) || (maxInt / 2 <? cap (shift s))).
      * apply setErr_failed.
      * destruct (read (grow (shift s)) r). exact I.
    + destruct (read (shift s) r). exact I.
Qed.

Lemma Scan_loop_over (fuel : nat) :
  forall (s : Scanner) (r : bytes.Buffer) (s' : Scanner) (r' : bytes.Buffer),
    Scan_loop fuel s r = Some (false, s', r') -> err s' <> None.
Proof.
  induction fuel as [|fuel IH]; intros s r s' r' HS; [discriminate|].
  simpl in HS. unfold scan_turn in HS.
  destruct ((0 <? len (window s)) || failed s).
  - destruct (ScanLines (window s) (failed s)) as [adv tok].
    unfold advance in HS.
    destruct (adv <? 0).
    { cbn [negb] in HS. injection HS as <- _. apply setErr_failed. }
    destruct (len (window s) <? adv).
    { cbn [negb] in HS. injection HS as <- _. apply setErr_failed. }
    cbn [negb] in HS. destruct tok as [t|]; [discriminate|].
    match type of HS with context [fill ?x r] =>
      pose proof (fill_done_failed x r) as Hf; destruct (fill x r) as [f0 s0 r0|s0 r0] end.
    + injection HS as -> <- _. exact Hf.
    + apply (IH _ _ _ _ HS).
  - pose proof (fill_done_failed s r) as Hf. destruct (fill s r) as [f0 s0 r0|s0 r0].
    + injection HS as -> <- _. exact Hf.
    + apply (IH _ _ _ _ HS).
Qed.

Lemma continues_refl (c : net.Conn) : continues c c.
Proof.
  repeat split; try reflexivity.
  - exists []. symmetry. apply app_nil_r.
  - exists []. reflexivity.
Qed.

Lemma continues_trans (c1 c2 c3 : net.Conn) :
  continues c1 c2 -> continues c2 c3 -> continues c1 c3.
Proof.
  intros (N1 & A1 & C1 & D1 & [m1 S1] & [u1 F1]) (N2 & A2 & C2 & D2 & [m2 S2] & [u2 F2]).
  repeat split; try congruence.
  - exists (m1 ++ m2). rewrite S2, S1, app_assoc. reflexivity.
  - exists (u1 ++ u2). rewrite F1, F2, app_assoc. reflexivity.
Qed.

Lemma Write_continues (c : net.Conn) (p : list byte) :
  continues c (fst (net.Write c p)).
Proof.
  unfold net.Write. destruct (net.closed c) eqn:Ec; [apply continues_refl|].
  destruct (net.faults c) as [|[ft|] fs] eqn:Ef; cbn [fst];
    unfold continues; cbn; rewrite ?Ec, ?Ef; repeat split.
  - exists [p]. reflexivity.
  - exists []. reflexivity.
  - exists (net.partial (net.written ft) p). reflexivity.
  - exists [Some ft]. reflexivity.
  - exists [p]. reflexivity.
  - exists [None]. reflexivity.
Qed.

Lemma process_line_continues (f : lineFunc) (t : list byte) (c : net.Conn) :
  continues c (flow_conn (process_line f t c)).
Proof.
  unfold process_line. destruct t as [|x t]; [apply continues_refl|].
  destruct (f (x :: t)) as [out [e|]]; [apply continues_refl|].
  pose proof (Write_continues c out) as H1.
  destruct (net.Write c out) as [c1 [e|]]; cbn [fst] in H1; [exact H1|].
  destruct (last_byte out) as [y|]; [|exact H1].
  destruct (negb (Byte.eqb y NL)); [|exact H1].
  pose proof (Write_continues c1 [NL]) as H2.
  destruct (net.Write c1 [NL]) as [c2 [e|]]; cbn [fst] in H2;
    apply (continues_trans _ _ _ H1 H2).
Qed.

(** The loop of [ProcessLines] only takes bytes from the front of the
    buffer and only adds writes to the connection. *)
Lemma loop_frame (f : lineFunc) (fuel : nat) :
  forall (sc : Scanner) (b : bytes.Buffer) (c : net.Conn),
    (exists taken, b = taken ++ snd (fst (ProcessLines_loop fuel f sc b c))) /\
    continues c (snd (ProcessLines_loop fuel f sc b c)).
Proof.
  induction fuel as [|fuel IH]; intros sc b c.
  - simpl. split; [exists []; reflexivity | apply continues_refl].
  - cbn [ProcessLines_loop].
    destruct (Scan sc b) as [[[found sc'] b']|] eqn:HS.
    2:{ simpl. split; [exists []; reflexivity | apply continues_refl]. }
    destruct (Scan_loop_takes _ _ _ _ _ _ HS) as [taken Ht].
    destruct found.
    + pose proof (process_line_continues f (token sc') c) as Hp.
      destruct (process_line f (token sc') c) as [c'|res c']; cbn [flow_conn] in Hp.
      * destruct (IH sc' b' c') as [[taken' Ht'] Hc'].
        split; [|apply (continues_trans _ _ _ Hp Hc')].
        exists (taken ++ taken'). rewrite <- app_assoc, <- Ht'. exact Ht.
      * simpl. split; [exists taken; exact Ht | exact Hp].
    + destruct (Err sc'); simpl; (split; [exists taken; exact Ht | apply continues_refl]).
Qed.

Lemma drain_error_wrap (s : sentinel) (e : error) :
  In s [ErrSyslogConnection; ErrSyslogWrite; ErrSyslogProcessHandleResult] ->
  drain_error (wrap s e) = true.
Proof.
  intros Hs. unfold drain_error, wrap. cbn [errors_Is].
  destruct (errors_Is e ErrSyslogConnection), (errors_Is e ErrSyslogWrite),
    (errors_Is e ErrSyslogProcessHandleResult);
    destruct Hs as [<-|[<-|[<-|[]]]]; reflexivity.
Qed.

(** A loop that ends well has drained the buffer; one that ends with an
    error ends with an error of the line function or with one that wraps
    an error of the package. *)
Lemma loop_ends (f : lineFunc) (fuel : nat) :
  forall (sc : Scanner) (b : bytes.Buffer) (c : net.Conn),
    (err sc = Some EOF -> b = []) ->
    (fst (fst (ProcessLines_loop fuel f sc b c)) = Ret None ->
     snd (fst (ProcessLines_loop fuel f sc b c)) = []) /\
    (forall e, fst (fst (ProcessLines_loop fuel f sc b c)) = Ret (Some e) ->
               drain_error e = true \/ exists t, t <> [] /\ snd (f t) = Some e).
Proof.
  induction fuel as [|fuel IH]; intros sc b c Hinv.
  - simpl. split; [discriminate | intros e; discriminate].
  - cbn [ProcessLines_loop].
    destruct (Scan sc b) as [[[found sc'] b']|] eqn:HS.
    2:{ simpl. split; [discriminate | intros e; discriminate]. }
    pose proof (Scan_loop_eof_drained _ _ _ _ _ _ Hinv HS) as Hinv'.
    destruct found.
    + unfold process_line.
      destruct (token sc') as [|x t] eqn:Etok; [apply IH, Hinv'|].
      destruct (f (x :: t)) as [out [e0|]] eqn:Ef.
      { simpl. split; [discriminate|]. intros e He. injection He as <-.
        right. exists (x :: t). rewrite Ef. split; [discriminate | reflexivity]. }
      destruct (net.Write c out) as [c1 [e1|]].
      { simpl. split; [discriminate|]. intros e He. injection He as <-. left.
        apply drain_error_wrap. simpl. tauto. }
      destruct (last_byte out) as [y|].
      2:{ simpl. split; [discriminate | intros e; discriminate]. }
      destruct (negb (Byte.eqb y NL)); [|apply IH, Hinv'].
      destruct (net.Write c1 [NL]) as [c2 [e2|]]; [|apply IH, Hinv'].
      simpl. split; [discriminate|]. intros e He. injection He as <-. left.
      apply drain_error_wrap. simpl. tauto.
    + pose proof (Scan_loop_over _ _ _ _ _ HS) as Hover.
      unfold Err. destruct (err sc') as [[]|] eqn:Ee; simpl;
        try (split; [discriminate|]; intros e He; injection He as <-; left;
             apply drain_error_wrap; simpl; tauto).
      * split; [intros _; apply Hinv'; reflexivity | intros e; discriminate].
      * congruence.
Qed.

(** ** Scripted connections *)

Lemma Forall_firstn {A : Type} (P : A -> Prop) (l : list A) (n : nat) :
  Forall P l -> Forall P (firstn n l).
Proof.
  intros H. revert n. induction H as [|x l Hx _ IH]; intros [|n]; simpl; auto.
Qed.

Lemma Forall_firstn_le {A : Type} (P : A -> Prop) (l : list A) (n m : nat) :
  (m <= n)%nat -> Forall P (firstn n l) -> Forall P (firstn m l).
Proof.
  revert n m. induction l as [|x l IH]; intros n m Hle H.
  - rewrite firstn_nil. constructor.
  - destruct m as [|m]; [constructor|].
    destruct n as [|n]; [lia|]. simpl in *. inversion H; subst.
    constructor; [assumption|]. apply (IH n m); [lia | assumption].
Qed.

Lemma healthy_ok_for (n : nat) (c : net.Conn) : healthy c -> ok_for n c.
Proof.
  intros (Ho & Hd & Hf). repeat split; try assumption. apply Forall_firstn, Hf.
Qed.

Lemma ok_for_le (n m : nat) (c : net.Conn) : (m <= n)%nat -> ok_for n c -> ok_for m c.
Proof.
  intros Hle (Ho & Hd & Hf). repeat split; try assumption.
  apply (Forall_firstn_le _ _ n m Hle Hf).
Qed.

Lemma Write_ok_for (n : nat) (c : net.Conn) (p : list byte) :
  ok_for (S n) c ->
  exists c', net.Write c p = (c', None) /\ ok_for n c' /\
             net.sent c' = net.sent c ++ [p] /\
             net.faults c' = skipn 1 (net.faults c) /\
             net.network c' = net.network c /\ net.address c' = net.address c.
Proof.
  intros (Ho & Hd & Hf). unfold net.Write. rewrite Ho.
  destruct (net.faults c) as [|[e|] fs] eqn:E.
  - eexists. split; [reflexivity|]. unfold ok_for. cbn. rewrite firstn_nil. auto 10.
  - simpl in Hf. inversion Hf; discriminate.
  - eexists. split; [reflexivity|]. unfold ok_for. cbn.
    simpl in Hf. inversion Hf; subst. auto 10.
Qed.

(** The first write that the script makes fail. *)
Lemma Write_fault (c : net.Conn) (p : list byte) (ft : net.Fault)
      (fs : list (option net.Fault)) :
  net.closed c = false -> net.faults c = Some ft :: fs ->
  exists c', net.Write c p = (c', Some (net.cause ft)) /\
             net.sent c' = net.sent c ++ net.partial (net.written ft) p /\
             net.faults c' = fs.
Proof.
  intros Ho Hf. unfold net.Write. rewrite Ho, Hf. eexists. split; [reflexivity|]. auto.
Qed.

Lemma process_line_ok (f : lineFunc) (t : list byte) (c : net.Conn) (n : nat) :
  ok_for (List.length (record_of f t) + n) c -> accepts f t ->
  exists c', process_line f t c = Continue c' /\ ok_for n c' /\
             net.sent c' = net.sent c ++ record_of f t /\
             net.faults c' = skipn (List.length (record_of f t)) (net.faults c).
Proof.
  intros Hc [-> | [Herr Hout]].
  - exists c. simpl in *. rewrite app_nil_r. auto.
  - destruct t as [|x t].
    { exists c. simpl in *. rewrite app_nil_r. auto. }
    unfold process_line. unfold record_of in *.
    destruct (f (x :: t)) as [out e]. simpl in Herr, Hout. subst e. cbn [fst] in *.
    destruct (last_byte out) as [y|] eqn:El.
    2:{ apply last_byte_nil_iff in El. contradiction. }
    destruct (Byte.eqb y NL); simpl negb; cbv iota.
    + cbn [List.length Nat.add] in Hc.
      destruct (Write_ok_for _ c out Hc) as (c1 & -> & Hc1 & Hs1 & Hf1 & _).
      exists c1. auto.
    + cbn [List.length Nat.add] in Hc.
      destruct (Write_ok_for _ c out Hc) as (c1 & -> & Hc1 & Hs1 & Hf1 & _).
      destruct (Write_ok_for _ c1 [NL] Hc1) as (c2 & -> & Hc2 & Hs2 & Hf2 & _).
      exists c2. rewrite Hs2, Hs1, <- app_assoc, Hf2, Hf1, skipn_skipn. auto.
Qed.

Lemma records_cons (f : lineFunc) (l : list byte) (ls : list (list byte)) :
  records f (l :: ls) = record_of f (dropCR l) ++ records f ls.
Proof. reflexivity. Qed.

Lemma records_app (f : lineFunc) (ls ms : list (list byte)) :
  records f (ls ++ ms) = records f ls ++ records f ms.
Proof. unfold records. apply flat_map_app. Qed.

(** The loop over the lines [pre], on a connection whose writes for these
    lines succeed. *)
Lemma loop_lines_ok (f : lineFunc) (pre : list (list byte)) :
  forall (sc : Scanner) (b : bytes.Buffer) (c : net.Conn) (rest : list byte) (n : nat),
    wf sc -> err sc = None ->
    window sc ++ b = terminated pre ++ rest ->
    Forall scannable pre ->
    Forall (fun l => accepts f (dropCR l)) pre ->
    ok_for (List.length (records f pre) + n) c ->
    exists sc' b' c',
      wf sc' /\ err sc' = None /\ window sc' ++ b' = rest /\
      ok_for n c' /\ net.sent c' = net.sent c ++ records f pre /\
      net.faults c' = skipn (List.length (records f pre)) (net.faults c) /\
      forall fuel,
        ProcessLines_loop (List.length pre + fuel) f sc b c
        = ProcessLines_loop fuel f sc' b' c'.
Proof.
  induction pre as [|l pre IH]; intros sc b c rest n Hwf Herr Hsplit Hscan Hacc Hc.
  - exists sc, b, c. simpl in *. rewrite app_nil_r. auto 10.
  - inversion Hscan as [|? ? [Hnl Hshort] Hscan']; subst.
    inversion Hacc as [|? ? Hl Hacc']; subst.
    simpl in Hsplit. rewrite <- !app_assoc in Hsplit. simpl in Hsplit.
    destruct (Scan_loop_line (S (S (List.length b))) sc b l (terminated pre ++ rest)
                Hwf Herr Hsplit Hnl Hshort ltac:(lia))
      as (sc1 & b1 & HS & Htok & Hwf1 & He1 & Hrest1).
    rewrite records_cons, length_app, <- Nat.add_assoc in Hc.
    destruct (process_line_ok f (dropCR l) c _ Hc Hl) as (c1 & Hp & Hc1 & Hs1 & Hf1).
    destruct (IH sc1 b1 c1 rest n Hwf1 He1 Hrest1 Hscan' Hacc' Hc1)
      as (sc' & b' & c' & Hwf' & He' & Hrest' & Hc' & Hs' & Hf' & Hloop).
    exists sc', b', c'.
    repeat (split; [assumption|]).
    split; [rewrite Hs', Hs1, records_cons, <- app_assoc; reflexivity|].
    split.
    { rewrite Hf', Hf1, skipn_skipn, records_cons, length_app. f_equal. lia. }
    intros fuel. cbn [ProcessLines_loop List.length Nat.add]. unfold Scan.
    rewrite HS, Htok, Hp. apply Hloop.
Qed.

Lemma loop_tail_ok (f : lineFunc) (fuel : nat) (sc : Scanner) (b : bytes.Buffer)
      (c : net.Conn) (last : list byte) :
  wf sc -> err sc = None ->
  window sc ++ b = last ->
  scannable last -> accepts f (dropCR last) ->
  ok_for (List.length (record_of f (dropCR last))) c ->
  (List.length last < fuel)%nat ->
  exists c',
    ProcessLines_loop fuel f sc b c = (Ret None, [], c') /\
    net.sent c' = net.sent c ++ record_of f (dropCR last) /\
    net.faults c' = skipn (List.length (record_of f (dropCR last))) (net.faults c).
Proof.
  intros Hwf Herr Hsplit [Hnl Hshort] Hacc Hc Hfuel.
  destruct (Scan_loop_tail (S (S (List.length b))) sc b last Hwf Herr Hsplit Hnl Hshort
              ltac:(lia)) as (sc1 & HS & Htok & He1 & Hend).
  destruct fuel as [|fuel]; [lia|].
  cbn [ProcessLines_loop]. unfold Scan at 1. rewrite HS.
  destruct last as [|x last].
  - exists c. unfold Err. rewrite He1. simpl. rewrite app_nil_r. auto.
  - rewrite (Htok ltac:(discriminate)).
    destruct (Hend ltac:(discriminate)) as [Hwf1 Hw1].
    rewrite <- (Nat.add_0_r (List.length _)) in Hc.
    destruct (process_line_ok f (dropCR (x :: last)) c 0 Hc Hacc) as (c1 & -> & Hc1 & Hs1 & Hf1).
    destruct fuel as [|fuel]; [simpl in Hfuel; lia|].
    destruct (Scan_over sc1 [] He1 Hw1) as (sc2 & HS2 & He2).
    exists c1. cbn [ProcessLines_loop]. rewrite HS2. unfold Err. rewrite He2. auto.
Qed.

Lemma ProcessLines_open (f : lineFunc) (s : SyslogProxy) (c : net.Conn) :
  conn s = Some c -> net.closed c = false -> net.deadline_err c = None ->
  ProcessLines f s =
    (let '(res, b', c') :=
       ProcessLines_loop (S (List.length (buf s))) f NewScanner (buf s) c in
     (res, set_conn (set_buf s b') (Some c'))).
Proof.
  intros Hconn Hopen Hdl.
  unfold ProcessLines, IsConnected, net.SetWriteDeadline.
  rewrite Hconn, Hopen, Hdl. reflexivity.
Qed.

(** [ProcessLines] after the lines [pre] of the buffer: their records
    are on the wire, and the loop goes on with what follows them. *)
Lemma ProcessLines_after (f : lineFunc) (s : SyslogProxy) (c : net.Conn)
      (pre : list (list byte)) (rest : list byte) (n : nat) :
  conn s = Some c ->
  buf s = terminated pre ++ rest ->
  Forall scannable pre ->
  Forall (fun l => accepts f (dropCR l)) pre ->
  ok_for (List.length (records f pre) + n) c ->
  exists sc' b' c' k,
    wf sc' /\ err sc' = None /\ window sc' ++ b' = rest /\ (List.length rest <= k)%nat /\
    ok_for n c' /\ net.sent c' = net.sent c ++ records f pre /\
    net.faults c' = skipn (List.length (records f pre)) (net.faults c) /\
    ProcessLines f s =
      (let '(res, b'', c'') := ProcessLines_loop (S k) f sc' b' c' in
       (res, set_conn (set_buf s b'') (Some c''))).
Proof.
  intros Hconn Hbuf Hscan Hacc Hc.
  destruct (loop_lines_ok f pre NewScanner (buf s) c rest n wf_NewScanner eq_refl
              Hbuf Hscan Hacc Hc)
    as (sc' & b' & c' & Hwf' & He' & Hrest' & Hc' & Hs' & Hf' & Hloop).
  exists sc', b', c', (List.length (buf s) - List.length pre)%nat.
  repeat (split; [assumption|]).
  pose proof (length_terminated pre) as Hlen.
  split; [rewrite Hbuf, length_app; lia|].
  repeat (split; [assumption|]).
  destruct Hc as (Ho & Hd & _).
  rewrite (ProcessLines_open f s c Hconn Ho Hd).
  replace (S (List.length (buf s)))
    with (List.length pre + S (List.length (buf s) - List.length pre))%nat
    by (rewrite Hbuf, length_app; lia).
  rewrite Hloop. reflexivity.
Qed.

(** ** The drain, in general *)

Lemma conn_continued (c c' : net.Conn) (S : list (list byte))
      (F : list (option net.Fault)) :
  continues c c' -> net.sent c' = S -> net.faults c' = F ->
  c' = net.mkConn (net.network c) (net.address c) (net.closed c) S (net.deadline_err c) F.
Proof.
  intros (Hn & Ha & Hc & Hd & _ & _) HS HF. destruct c'. simpl in *. congruence.
Qed.

(** What [ProcessLines] never touches. *)
Lemma drain_frame (f : lineFunc) (s : SyslogProxy) :
  same_settings s (snd (ProcessLines f s)) /\
  (exists taken, buf s = taken ++ buf (snd (ProcessLines f s))) /\
  match conn s with
  | None => conn (snd (ProcessLines f s)) = None
  | Some c => exists c', conn (snd (ProcessLines f s)) = Some c' /\ continues c c'
  end.
Proof.
  unfold ProcessLines, IsConnected.
  destruct (conn s) as [c|] eqn:Hconn; cbn [negb].
  2:{ cbn [snd]. rewrite Hconn. repeat split. exists []. reflexivity. }
  destruct (net.SetWriteDeadline c).
  { cbn [snd]. rewrite Hconn. repeat split; [exists []; reflexivity|].
    exists c. split; [reflexivity | apply continues_refl]. }
  destruct (loop_frame f (S (List.length (buf s))) NewScanner (buf s) c) as [[taken Ht] Hc].
  destruct (ProcessLines_loop _ _ _ _ _) as [[res b'] c']. cbn [fst snd] in *.
  repeat split; [exists taken; exact Ht|].
  exists c'. split; [reflexivity | exact Hc].
Qed.

(** X1: whatever the line function, the buffer and the connection are,
    [ProcessLines] leaves the settings of the proxy (destination, tag,
    priority, timeout, mutex) as they are, takes bytes from the front of
    the buffer only, and keeps the connection installed: the same end
    point, as open as before, with the payloads sent before still there
    and new ones only added after them. *)
Theorem ProcessLines_frame (f : lineFunc) (s : SyslogProxy) :
  same_settings s (snd (ProcessLines f s)) /\
  (exists taken, buf s = taken ++ buf (snd (ProcessLines f s))) /\
  match conn s with
  | None => conn (snd (ProcessLines f s)) = None
  | Some c => exists c', conn (snd (ProcessLines f s)) = Some c' /\ continues c c'
  end.
Proof. exact (drain_frame f s). Qed.

Lemma drain_empty (g : lineFunc) (s : SyslogProxy) (c : net.Conn) :
  conn s = Some c -> net.closed c = false -> net.deadline_err c = None -> buf s = [] ->
  ProcessLines g s = (Ret None, s).
Proof.
  intros Hconn Ho Hd Hbuf. rewrite (ProcessLines_open g s c Hconn Ho Hd), Hbuf.
  cbn [List.length ProcessLines_loop].
  change (Scan NewScanner []) with
    (Some (false, mkScanner MaxScanTokenSize [] startBufSize 0 [] (Some EOF), @nil byte)).
  cbv iota. cbn [Err err]. cbv iota.
  destruct s. simpl in *. subst. reflexivity.
Qed.

(** X2: a call of [ProcessLines] that returns nil has emptied the buffer,
    whatever was in it; a drain that follows it at once, with any line
    function, returns nil again and changes nothing. *)
Theorem ProcessLines_nil_drains (f g : lineFunc) (s : SyslogProxy) :
  fst (ProcessLines f s) = Ret None ->
  buf (snd (ProcessLines f s)) = [] /\
  ProcessLines g (snd (ProcessLines f s)) = (Ret None, snd (ProcessLines f s)).
Proof.
  intros Hnil.
  destruct (drain_frame f s) as (_ & _ & Hc).
  unfold ProcessLines, IsConnected in *.
  destruct (conn s) as [c|] eqn:Hconn; cbn [negb] in *; [|discriminate].
  unfold net.SetWriteDeadline in *.
  destruct (net.closed c) eqn:Ho; [discriminate|].
  destruct (net.deadline_err c) eqn:Hd; [discriminate|].
  destruct (loop_ends f (S (List.length (buf s))) NewScanner (buf s) c ltac:(discriminate))
    as [Hdrained _].
  destruct (ProcessLines_loop _ _ _ _ _) as [[res b'] c']. cbn [fst snd] in *.
  specialize (Hdrained Hnil). subst b'.
  destruct Hc as (c0 & Hc0 & (_ & _ & Hclosed & Hdead & _)). injection Hc0 as <-.
  split; [reflexivity|].
  apply (drain_empty g _ c'); try reflexivity; congruence.
Qed.

(** The errors of a drain. *)
Lemma drain_error_cases (f : lineFunc) (s : SyslogProxy) (e : error) :
  fst (ProcessLines f s) = Ret (Some e) ->
  drain_error e = true \/ exists t, t <> [] /\ snd (f t) = Some e.
Proof.
  intros He. unfold ProcessLines in He.
  destruct (negb (IsConnected s)).
  { injection He as <-. left. reflexivity. }
  destruct (conn s) as [c|]; [|discriminate].
  destruct (net.SetWriteDeadline c) as [e0|].
  { injection He as <-. left. apply drain_error_wrap. simpl. tauto. }
  destruct (loop_ends f (S (List.length (buf s))) NewScanner (buf s) c ltac:(discriminate))
    as [_ Herr].
  destruct (ProcessLines_loop _ _ _ _ _) as [[res b'] c']. cbn [fst snd] in *.
  apply Herr, He.
Qed.

(** X3: an error returned by [ProcessLines] is an error that the line
    function gave for a line, handed on as it is, or else it wraps
    [ErrSyslogConnection], [ErrSyslogWrite] or
    [ErrSyslogProcessHandleResult]; with a line function that gives no
    error, as the default one, it always wraps one of the three. *)
Theorem ProcessLines_errors (f : lineFunc) (s : SyslogProxy) (e : error) :
  fst (ProcessLines f s) = Ret (Some e) ->
  (drain_error e = true \/ exists t, t <> [] /\ snd (f t) = Some e) /\
  ((forall t, snd (f t) = None) -> drain_error e = true).
Proof.
  intros He. pose proof (drain_error_cases f s e He) as Hcases.
  split; [exact Hcases|].
  intros Hf. destruct Hcases as [H|(t & _ & Ht)]; [exact H|]. rewrite Hf in Ht. discriminate.
Qed.

Lemma ProcessLines_errors_witness :
  drain_error (wrap ErrSyslogProcessHandleResult (scan_error_value ErrTooLong)) = true.
Proof.
  apply (proj2 (ProcessLines_errors identity (proxy_with (long_line ++ [NL]) (Some udp514)) _
                  ltac:(vm_compute; reflexivity))).
  reflexivity.
Defined.

Lemma ProcessLines_nil_drains_witness :
  exists s',
    ProcessLines identity (proxy_with (B "a" ++ [NL] ++ B "b") (Some udp514)) = (Ret None, s') /\
    buf s' = [] /\ ProcessLines erase s' = (Ret None, s').
Proof.
  eexists. split; [vm_compute; reflexivity|].
  apply (ProcessLines_nil_drains identity erase
           (proxy_with (B "a" ++ [NL] ++ B "b") (Some udp514))).
  vm_compute. reflexivity.
Defined.

(** ** Failing writes *)

Lemma ProcessLines_all_ok (f : lineFunc) (s : SyslogProxy) (c : net.Conn)
      (ls : list (list byte)) (last : list byte) :
  conn s = Some c ->
  buf s = terminated ls ++ last ->
  Forall scannable ls -> scannable last ->
  Forall (fun l => accepts f (dropCR l)) ls -> accepts f (dropCR last) ->
  ok_for (List.length (records f (ls ++ [last]))) c ->
  ProcessLines f s =
    (Ret None,
     set_conn (set_buf s [])
       (Some (net.mkConn (net.network c) (net.address c) (net.closed c)
                         (net.sent c ++ records f (ls ++ [last]))
                         (net.deadline_err c)
                         (skipn (List.length (records f (ls ++ [last]))) (net.faults c))))).
Proof.
  intros Hconn Hbuf Hscan Hlast Hacc Hacclast Hc.
  pose proof (drain_frame f s) as (_ & _ & Hframe). rewrite Hconn in Hframe.
  rewrite records_app, length_app in Hc.
  assert (Elast : records f [last] = record_of f (dropCR last)).
  { unfold records. simpl. apply app_nil_r. }
  rewrite Elast in Hc.
  destruct (ProcessLines_after f s c ls last _ Hconn Hbuf Hscan Hacc Hc)
    as (sc' & b' & c' & k & Hwf' & He' & Hrest' & Hk & Hc' & Hs' & Hf' & HP).
  destruct (loop_tail_ok f (S k) sc' b' c' last Hwf' He' Hrest' Hlast Hacclast Hc' ltac:(lia))
    as (c'' & Hloop & Hs'' & Hf'').
  rewrite HP, Hloop in *. cbn [snd conn set_conn] in Hframe.
  destruct Hframe as (c0 & Hc0 & Hcont). injection Hc0 as <-.
  f_equal. f_equal. f_equal.
  apply (conn_continued c c'' _ _ Hcont).
  - rewrite Hs'', Hs', records_app, Elast, <- app_assoc. reflexivity.
  - rewrite Hf'', Hf', skipn_skipn, records_app, Elast, length_app. f_equal. lia.
Qed.

(** X4: when a write fails, [ProcessLines] stops and returns the error
    of the write wrapped in [ErrSyslogWrite]; the records of the lines
    before stay on the wire.  It drops the number of bytes that the
    failed write reports: if it is the write of the processed line that
    fails, the part of the line that went out before the error is on the
    wire, with no line end behind it, and the error does not tell how
    much; if it is the write of the line end appended to the line, the
    line is on the wire and its end is not, unless it went out before
    the error. *)
Theorem ProcessLines_write_fails (f : lineFunc) (s : SyslogProxy) (c : net.Conn)
        (pre : list (list byte)) (l rest out : list byte) (ft : net.Fault)
        (later : list (option net.Fault)) :
  conn s = Some c ->
  buf s = terminated pre ++ l ++ NL :: rest ->
  Forall scannable pre -> scannable l ->
  Forall (fun l => accepts f (dropCR l)) pre ->
  dropCR l <> [] -> f (dropCR l) = (out, None) ->
  net.closed c = false -> net.deadline_err c = None ->
  (net.faults c = repeat None (List.length (records f pre)) ++ Some ft :: later ->
   exists s' c',
     ProcessLines f s = (Ret (Some (wrap ErrSyslogWrite (net.cause ft))), s') /\
     conn s' = Some c' /\
     net.sent c' = net.sent c ++ records f pre ++ net.partial (net.written ft) out) /\
  (net.faults c = repeat None (List.length (records f pre) + 1) ++ Some ft :: later ->
   out <> [] -> last_byte out <> Some NL ->
   exists s' c',
     ProcessLines f s = (Ret (Some (wrap ErrSyslogWrite (net.cause ft))), s') /\
     conn s' = Some c' /\
     net.sent c' = net.sent c ++ records f pre ++ [out] ++ net.partial (net.written ft) [NL]).
Proof.
  intros Hconn Hbuf Hscan [Hnl Hshort] Hacc Hne Hf Ho Hd.
  assert (Hok : forall n tail,
             net.faults c = repeat None n ++ tail -> ok_for n c).
  { intros n tail E. repeat split; try assumption.
    rewrite E, firstn_app, repeat_length, Nat.sub_diag, firstn_O, app_nil_r.
    apply Forall_firstn. apply Forall_forall. intros x Hx. apply repeat_spec in Hx. exact Hx. }
  assert (Hskip : forall n tail,
             net.faults c = repeat None n ++ tail -> skipn n (net.faults c) = tail).
  { intros n tail E. rewrite E, skipn_app, repeat_length, Nat.sub_diag.
    rewrite skipn_all2 by (rewrite repeat_length; lia). reflexivity. }
  split.
  - intros Hfaults.
    pose proof (Hok _ _ Hfaults) as Hc. rewrite <- (Nat.add_0_r (List.length _)) in Hc.
    destruct (ProcessLines_after f s c pre (l ++ NL :: rest) 0 Hconn Hbuf Hscan Hacc Hc)
      as (sc' & b' & c' & k & Hwf' & He' & Hrest' & Hk & Hc' & Hs' & Hf' & HP).
    destruct (Scan_loop_line (S (S (List.length b'))) sc' b' l rest
                Hwf' He' Hrest' Hnl Hshort ltac:(lia))
      as (sc1 & b1 & HS & Htok & _).
    rewrite (Hskip _ _ Hfaults) in Hf'.
    destruct Hc' as (Ho' & _).
    destruct (Write_fault c' out ft later Ho' Hf') as (c1 & Hw & Hs1 & _).
    exists (set_conn (set_buf s b1) (Some c1)), c1.
    split; [|split; [reflexivity | rewrite Hs1, Hs', <- app_assoc; reflexivity]].
    rewrite HP. cbn [ProcessLines_loop]. unfold Scan. rewrite HS, Htok.
    unfold process_line. destruct (dropCR l) as [|x t]; [congruence|].
    rewrite Hf, Hw. reflexivity.
  - intros Hfaults Hout Hlast.
    rewrite repeat_app, <- app_assoc in Hfaults.
    pose proof (Hok _ _ Hfaults) as Hc. rewrite <- (Nat.add_0_r (List.length _)) in Hc.
    destruct (ProcessLines_after f s c pre (l ++ NL :: rest) 0 Hconn Hbuf Hscan Hacc Hc)
      as (sc' & b' & c' & k & Hwf' & He' & Hrest' & Hk & Hc' & Hs' & Hf' & HP).
    destruct (Scan_loop_line (S (S (List.length b'))) sc' b' l rest
                Hwf' He' Hrest' Hnl Hshort ltac:(lia))
      as (sc1 & b1 & HS & Htok & _).
    rewrite (Hskip _ _ Hfaults) in Hf'. simpl in Hf'.
    destruct Hc' as (Ho' & Hd' & _).
    assert (Hc1 : ok_for 1 c').
    { repeat split; try assumption. rewrite Hf'. simpl. constructor; [reflexivity | constructor]. }
    destruct (Write_ok_for 0 c' out Hc1) as (c1 & Hw1 & (Ho1 & _) & Hs1 & Hf1 & _).
    rewrite Hf' in Hf1. simpl in Hf1.
    destruct (Write_fault c1 [NL] ft later Ho1 Hf1) as (c2 & Hw2 & Hs2 & _).
    exists (set_conn (set_buf s b1) (Some c2)), c2.
    split; [|split; [reflexivity |
                     rewrite Hs2, Hs1, Hs', <- !app_assoc; reflexivity]].
    rewrite HP. cbn [ProcessLines_loop]. unfold Scan. rewrite HS, Htok.
    unfold process_line. destruct (dropCR l) as [|x t]; [congruence|].
    rewrite Hf, Hw1.
    destruct (last_byte out) as [y|] eqn:El.
    2:{ apply last_byte_nil_iff in El. contradiction. }
    destruct (Byte.eqb y NL) eqn:Ey.
    { apply Byte.byte_dec_bl in Ey. subst y. congruence. }
    cbn [negb]. rewrite Hw2. reflexivity.
Qed.

(** A connection whose third write fails after two bytes: of the line
    [bcd], [bc] is on the wire. *)
Lemma ProcessLines_write_fails_witness :
  exists s' c',
    ProcessLines identity
      (proxy_with (B "a" ++ [NL] ++ B "bcd" ++ [NL])
                  (Some (net.mkConn "tcp" "1.2.3.4:514" false [] None
                                    [None; None; Some (net.mkFault 2 (Foreign "timeout"))])))
    = (Ret (Some (wrap ErrSyslogWrite (Foreign "timeout"))), s') /\
    conn s' = Some c' /\ net.sent c' = [B "a"; [NL]; B "bc"].
Proof.
  apply (proj1 (ProcessLines_write_fails identity
           (proxy_with (B "a" ++ [NL] ++ B "bcd" ++ [NL])
                       (Some (net.mkConn "tcp" "1.2.3.4:514" false [] None
                                         [None; None; Some (net.mkFault 2 (Foreign "timeout"))])))
           (net.mkConn "tcp" "1.2.3.4:514" false [] None
                       [None; None; Some (net.mkFault 2 (Foreign "timeout"))])
           [B "a"] (B "bcd") [] (B "bcd") (net.mkFault 2 (Foreign "timeout")) []
           eq_refl eq_refl
           ltac:(constructor; [close_scannable | constructor])
           ltac:(close_scannable)
           ltac:(constructor; [right; split; [reflexivity | discriminate] | constructor])
           ltac:(discriminate) eq_refl eq_refl eq_refl)).
  reflexivity.
Defined.

(** ** The longest line *)

Lemma fill_full (s : Scanner) (r : bytes.Buffer) :
  wf s -> err s = None -> len (window s) = MaxScanTokenSize ->
  exists s', fill s r = Done false s' r /\ err s' = Some ErrTooLong.
Proof.
  intros (Hm & Hs & He & Hc) Herr Hfull. unfold s_end in *.
  assert (H0 : start s = 0) by lia.
  assert (Hcap : cap s = MaxScanTokenSize) by lia.
  unfold fill. rewrite Herr.
  assert (Hshift : shift s = s).
  { unfold shift. rewrite H0. reflexivity. }
  rewrite Hshift. unfold s_end. rewrite H0, Hfull, Hcap, Hm.
  change (0 + MaxScanTokenSize =? MaxScanTokenSize) with true.
  change (MaxScanTokenSize <=? MaxScanTokenSize) with true.
  cbn [orb]. cbv iota.
  eexists. split; [reflexivity|]. apply setErr_fresh, Herr.
Qed.

(** [Scan] on input that starts with as many bytes as the largest token
    and no line end among them gives up. *)
Lemma Scan_loop_too_long (fuel : nat) :
  forall (s : Scanner) (r : bytes.Buffer) (l rest : list byte),
    wf s -> err s = None ->
    window s ++ r = l ++ rest ->
    ~ In NL l -> len l = MaxScanTokenSize ->
    (List.length r < fuel)%nat ->
    exists s' r', Scan_loop fuel s r = Some (false, s', r') /\ err s' = Some ErrTooLong.
Proof.
  induction fuel as [|fuel IH]; intros s r l rest Hwf Herr Hsplit Hnl Hlen Hfuel; [lia|].
  assert (Hpre : exists x, l = window s ++ x /\ r = x ++ rest).
  { destruct Hwf as (_ & Hs & He & Hc). unfold s_end in He.
    apply app_eq_app in Hsplit. destruct Hsplit as (x & [[Hw Hr] | [Hl Hr]]).
    - assert (x = []).
      { apply len_nil_iff. rewrite Hw, len_app in He. pose proof (len_nonneg x). lia. }
      subst x. rewrite app_nil_r in Hw. exists []. rewrite app_nil_r. simpl in *. auto.
    - exists x. auto. }
  destruct Hpre as (x & Hl & Hr).
  assert (Hnlw : ~ In NL (window s)).
  { intros Hin. apply Hnl. rewrite Hl. apply in_or_app. tauto. }
  destruct (turn_needs_more s r Hwf Herr Hnlw) as (s0 & Ht & Hwf0 & He0 & Hw0).
  cbn [Scan_loop]. rewrite Ht.
  destruct (Z.eq_dec (len (window s)) MaxScanTokenSize) as [Efull|Eless].
  - rewrite <- Hw0 in Efull.
    destruct (fill_full s0 r Hwf0 He0 Efull) as (s' & -> & He').
    exists s', r. auto.
  - assert (Hshort : len (window s0) < MaxScanTokenSize).
    { rewrite Hw0. rewrite Hl, len_app in Hlen. pose proof (len_nonneg x). lia. }
    assert (Hrne : r <> []).
    { intros ->. symmetry in Hr. apply app_eq_nil in Hr. destruct Hr as [-> _].
      rewrite app_nil_r in Hl. rewrite Hl in Hlen. contradiction. }
    destruct (fill_more s0 r Hwf0 He0 Hshort Hrne)
      as (p & r' & s1 & -> & Hpr & Hp & Hw1 & Hwf1 & He1).
    apply (IH s1 r' l rest Hwf1 He1); try assumption.
    + rewrite Hw1, Hw0, <- app_assoc, <- Hpr. rewrite Hr, Hl, <- app_assoc. reflexivity.
    + pose proof (split_shorter _ _ _ Hpr Hp). lia.
Qed.

(** X5: the scanner takes lines of up to 65535 bytes.  When the lines
    [pre] of the buffer are followed by 65536 bytes without a line end,
    [ProcessLines] forwards the lines [pre] and returns the scanner's
    "token too long" wrapped in [ErrSyslogProcessHandleResult], whatever
    follows in the buffer. *)
Theorem ProcessLines_line_too_long (f : lineFunc) (s : SyslogProxy) (c : net.Conn)
        (pre : list (list byte)) (l rest : list byte) :
  conn s = Some c -> healthy c ->
  buf s = terminated pre ++ l ++ rest ->
  Forall scannable pre ->
  Forall (fun l => accepts f (dropCR l)) pre ->
  ~ In NL l -> len l = MaxScanTokenSize ->
  exists s' c',
    ProcessLines f s
    = (Ret (Some (wrap ErrSyslogProcessHandleResult (scan_error_value ErrTooLong))), s') /\
    conn s' = Some c' /\ net.sent c' = net.sent c ++ records f pre.
Proof.
  intros Hconn Hc Hbuf Hscan Hacc Hnl Hlen.
  destruct (ProcessLines_after f s c pre (l ++ rest) 0 Hconn Hbuf Hscan Hacc
              (healthy_ok_for _ c Hc))
    as (sc' & b' & c' & k & Hwf' & He' & Hrest' & Hk & Hc' & Hs' & Hf' & HP).
  destruct (Scan_loop_too_long (S (S (List.length b'))) sc' b' l rest
              Hwf' He' Hrest' Hnl Hlen ltac:(lia)) as (sc1 & b1 & HS & He1).
  exists (set_conn (set_buf s b1) (Some c')), c'.
  split; [|split; [reflexivity | exact Hs']].
  rewrite HP. cbn [ProcessLines_loop]. unfold Scan. rewrite HS.
  unfold Err. rewrite He1. reflexivity.
Qed.

Lemma ProcessLines_line_too_long_witness :
  exists s' c',
    ProcessLines identity (proxy_with (terminated [B "a"] ++ long_line ++ [NL]) (Some udp514))
    = (Ret (Some (wrap ErrSyslogProcessHandleResult (scan_error_value ErrTooLong))), s') /\
    conn s' = Some c' /\ net.sent c' = [B "a"; [NL]].
Proof.
  apply (ProcessLines_line_too_long identity
           (proxy_with (terminated [B "a"] ++ long_line ++ [NL]) (Some udp514)) udp514
           [B "a"] long_line [NL]).
  - reflexivity.
  - close_healthy.
  - reflexivity.
  - constructor; [close_scannable | constructor].
  - constructor; [right; split; [reflexivity | discriminate] | constructor].
  - unfold long_line. intros Hin. apply repeat_spec in Hin. discriminate.
  - unfold long_line, len. rewrite repeat_length. apply Z2Nat.id. discriminate.
Defined.

(** ** Blank lines, and drains one after the other *)

Lemma scannable_blank (l : list byte) : l = [] \/ l = [CR] -> scannable l /\ dropCR l = [].
Proof.
  intros [-> | ->]; (split; [split; [simpl; intuition discriminate | reflexivity] | reflexivity]).
Qed.

Lemma records_blank (f : lineFunc) (ls : list (list byte)) :
  Forall (fun l => l = [] \/ l = [CR]) ls -> records f ls = [].
Proof.
  induction 1 as [|l ls Hl _ IH]; [reflexivity|].
  rewrite records_cons, IH. destruct (scannable_blank l Hl) as [_ ->]. reflexivity.
Qed.

(** X6: lines that are empty, or hold a carriage return only, are
    dropped: a buffer made of such lines is drained without a write and
    without the line function being asked, so that the drain returns nil
    whatever the line function would answer and whatever the connection
    would do with a write. *)
Theorem ProcessLines_blank_lines (f : lineFunc) (s : SyslogProxy) (c : net.Conn)
        (ls : list (list byte)) (last : list byte) :
  conn s = Some c -> net.closed c = false -> net.deadline_err c = None ->
  buf s = terminated ls ++ last ->
  Forall (fun l => l = [] \/ l = [CR]) ls -> (last = [] \/ last = [CR]) ->
  ProcessLines f s = (Ret None, set_buf s []).
Proof.
  intros Hconn Ho Hd Hbuf Hls Hlast.
  assert (Hrec : records f (ls ++ [last]) = []).
  { apply records_blank. apply Forall_app. split; [exact Hls | constructor; [exact Hlast | constructor]]. }
  rewrite (ProcessLines_all_ok f s c ls last Hconn Hbuf).
  - rewrite Hrec. cbn [List.length skipn]. rewrite app_nil_r.
    destruct s, c. unfold set_conn, set_buf. simpl in *. congruence.
  - eapply Forall_impl; [|exact Hls]. intros l Hl. apply (scannable_blank l Hl).
  - apply (scannable_blank last Hlast).
  - eapply Forall_impl; [|exact Hls]. intros l Hl. left. apply (scannable_blank l Hl).
  - left. apply (scannable_blank last Hlast).
  - rewrite Hrec. repeat split; try assumption. constructor.
Qed.

(** The line function that fails on every line. *)
Lemma ProcessLines_blank_lines_witness :
  ProcessLines (fun _ => ([], Some (Foreign "no")))
    (proxy_with [NL; CR; NL; NL; CR]
                (Some (net.mkConn "udp" "1.2.3.4:514" false [] None [Some (net.mkFault 0 (Foreign "down"))])))
  = (Ret None,
     proxy_with [] (Some (net.mkConn "udp" "1.2.3.4:514" false [] None [Some (net.mkFault 0 (Foreign "down"))]))).
Proof.
  apply (ProcessLines_blank_lines (fun _ => ([], Some (Foreign "no")))
           (proxy_with [NL; CR; NL; NL; CR]
              (Some (net.mkConn "udp" "1.2.3.4:514" false [] None [Some (net.mkFault 0 (Foreign "down"))])))
           (net.mkConn "udp" "1.2.3.4:514" false [] None [Some (net.mkFault 0 (Foreign "down"))])
           [[]; [CR]; []] [CR]); try reflexivity.
  - constructor; [left; reflexivity|].
    constructor; [right; reflexivity|].
    constructor; [left; reflexivity | constructor].
  - right. reflexivity.
Defined.

Lemma Forall_skipn {A : Type} (P : A -> Prop) (l : list A) (n : nat) :
  Forall P l -> Forall P (skipn n l).
Proof.
  intros H. revert n. induction H as [|x l Hx Hl IH]; intros [|n]; simpl; auto.
Qed.

(** X7: draining at a line boundary does not show.  When the buffer
    holds whole lines, draining it, writing more to the writer and
    draining again leaves the proxy and its connection exactly as writing
    first and draining once. *)
Theorem ProcessLines_in_two (f : lineFunc) (s : SyslogProxy) (c : net.Conn)
        (ls1 ls2 : list (list byte)) (last : list byte) :
  conn s = Some c -> healthy c ->
  buf s = terminated ls1 ->
  Forall scannable ls1 -> Forall scannable ls2 -> scannable last ->
  Forall (fun l => accepts f (dropCR l)) ls1 ->
  Forall (fun l => accepts f (dropCR l)) ls2 -> accepts f (dropCR last) ->
  fst (ProcessLines f s) = Ret None /\
  ProcessLines f (Writer_Write (snd (ProcessLines f s)) (terminated ls2 ++ last))
  = ProcessLines f (Writer_Write s (terminated ls2 ++ last)) /\
  fst (ProcessLines f (Writer_Write s (terminated ls2 ++ last))) = Ret None.
Proof.
  intros Hconn Hc Hbuf Hs1 Hs2 Hlast Ha1 Ha2 Hal.
  assert (Hblank : scannable [] /\ accepts f (dropCR [])).
  { split; [apply scannable_blank; auto | left; reflexivity]. }
  destruct Hblank as [Hsb Hab].
  assert (Hr1 : records f (ls1 ++ [[]]) = records f ls1).
  { rewrite records_app. unfold records at 2. simpl. apply app_nil_r. }
  (* the first drain *)
  rewrite (ProcessLines_all_ok f s c ls1 [] Hconn
             ltac:(rewrite app_nil_r; exact Hbuf) Hs1 Hsb Ha1 Hab (healthy_ok_for _ c Hc)).
  rewrite Hr1. cbn [fst snd].
  split; [reflexivity|].
  set (c1 := net.mkConn (net.network c) (net.address c) (net.closed c)
                        (net.sent c ++ records f ls1) (net.deadline_err c)
                        (skipn (List.length (records f ls1)) (net.faults c))).
  assert (Hc1 : healthy c1).
  { destruct Hc as (Ho & Hd & Hf). repeat split; try assumption.
    apply Forall_skipn, Hf. }
  (* the second drain *)
  rewrite (ProcessLines_all_ok f (Writer_Write (set_conn (set_buf s []) (Some c1))
                                               (terminated ls2 ++ last))
             c1 ls2 last eq_refl eq_refl Hs2 Hlast Ha2 Hal (healthy_ok_for _ c1 Hc1)).
  (* the single drain *)
  rewrite (ProcessLines_all_ok f (Writer_Write s (terminated ls2 ++ last)) c (ls1 ++ ls2) last
             Hconn
             ltac:(unfold Writer_Write, bytes.Write; cbn [buf set_buf];
                   rewrite Hbuf, terminated_app, <- app_assoc; reflexivity)
             ltac:(apply Forall_app; split; assumption) Hlast
             ltac:(apply Forall_app; split; assumption) Hal (healthy_ok_for _ c Hc)).
  split; [|reflexivity].
  f_equal. unfold c1. cbn.
  assert (E : records f ((ls1 ++ ls2) ++ [last])
              = records f ls1 ++ records f (ls2 ++ [last])).
  { rewrite <- app_assoc. apply records_app. }
  rewrite E, length_app, skipn_skipn, app_assoc.
  rewrite (Nat.add_comm (List.length (records f ls1))).
  reflexivity.
Qed.

Lemma ProcessLines_in_two_witness :
  ProcessLines identity
    (Writer_Write (snd (ProcessLines identity (proxy_with (B "a" ++ [NL]) (Some udp514))))
                  (B "b" ++ [NL] ++ B "c"))
  = ProcessLines identity
      (Writer_Write (proxy_with (B "a" ++ [NL]) (Some udp514)) (B "b" ++ [NL] ++ B "c")).
Proof.
  apply (ProcessLines_in_two identity (proxy_with (B "a" ++ [NL]) (Some udp514)) udp514
           [B "a"] [B "b"] (B "c")).
  - reflexivity.
  - close_healthy.
  - reflexivity.
  - constructor; [close_scannable | constructor].
  - constructor; [close_scannable | constructor].
  - close_scannable.
  - constructor; [right; split; [reflexivity | discriminate] | constructor].
  - constructor; [right; split; [reflexivity | discriminate] | constructor].
  - right; split; [reflexivity | discriminate].
Defined.

(** ** Handling a record *)

Lemma loop_never_blocks (f : lineFunc) (fuel : nat) :
  forall (sc : Scanner) (b : bytes.Buffer) (c : net.Conn),
    fst (fst (ProcessLines_loop fuel f sc b c)) <> Block.
Proof.
  induction fuel as [|fuel IH]; intros sc b c; [discriminate|].
  cbn [ProcessLines_loop].
  destruct (Scan sc b) as [[[[] sc'] b']|]; [| |discriminate].
  - unfold process_line.
    destruct (token sc') as [|x t]; [apply IH|].
    destruct (f (x :: t)) as [out [e|]]; [discriminate|].
    destruct (net.Write c out) as [c1 [e|]]; [discriminate|].
    destruct (last_byte out) as [y|]; [|discriminate].
    destruct (negb (Byte.eqb y NL)); [|apply IH].
    destruct (net.Write c1 [NL]) as [c2 [e|]]; [discriminate | apply IH].
  - destruct (Err sc'); discriminate.
Qed.

Lemma ProcessLines_never_blocks (f : lineFunc) (s : SyslogProxy) :
  fst (ProcessLines f s) <> Block.
Proof.
  unfold ProcessLines.
  destruct (negb (IsConnected s)); [discriminate|].
  destruct (conn s) as [c|]; [|discriminate].
  destruct (net.SetWriteDeadline c); [discriminate|].
  pose proof (loop_never_blocks f (S (List.length (buf s))) NewScanner (buf s) c) as Hl.
  destruct (ProcessLines_loop _ _ _ _ _) as [[res b'] c']. exact Hl.
Qed.

(** X8: on a connected proxy whose mutex is free, [Handle] never blocks;
    it calls the downstream handler once and, however the call ends (nil,
    an error of the downstream handler or of the drain, a panic of the
    drain), the mutex is free again afterwards, acquired once more. *)
Theorem Handle_releases_lock {H : Type} {DH : slog.Handler H}
        (h : SyslogHandler) (r : slog.Record_) (w : World H) :
  IsConnected (proxy w) = true -> sync.locked (mu (proxy w)) = false ->
  fst (Handle h r w) <> Block /\
  mu (proxy (snd (Handle h r w))) = sync.mkMutex false (S (sync.acquired (mu (proxy w)))) /\
  handled (snd (Handle h r w)) = S (handled w) /\
  downstream (snd (Handle h r w)) = fst (fst (slog.Handle (downstream w) r)) /\
  IsConnected (proxy (snd (Handle h r w))) = true.
Proof.
  intros Hconn Hfree. unfold Handle. rewrite Hconn. cbn [negb].
  unfold Lock, sync.Lock. rewrite Hfree. cbn [option_map].
  destruct (slog.Handle (downstream w) r) as [[d' out] [e|]]; cbn [fst].
  - unfold Unlock, sync.Unlock, Writer_Write. cbn.
    unfold IsConnected in *. cbn. repeat split; try assumption. discriminate.
  - set (px := Writer_Write (set_mu (proxy w) _) out).
    destruct (drain_frame (lineProcessFunc h) px) as (Hset & _ & Hc).
    pose proof (ProcessLines_never_blocks (lineProcessFunc h) px) as Hnb.
    destruct (ProcessLines (lineProcessFunc h) px) as [res px']. cbn [fst snd] in *.
    destruct Hset as (_ & _ & _ & _ & _ & _ & Hmu).
    unfold Unlock, sync.Unlock. rewrite Hmu. unfold px at 1 2. cbn.
    assert (Hc' : IsConnected px' = true).
    { unfold IsConnected in *. unfold px in Hc. cbn in Hc.
      destruct (conn (proxy w)); [|discriminate].
      destruct Hc as (c' & -> & _). reflexivity. }
    repeat split; assumption.
Qed.

Lemma Handle_releases_lock_witness :
  mu (proxy (snd (Handle (mkSyslogHandler 0 erase) (slog.mkRecord 0 "hello")
                         (mkWorld (proxy_with [] (Some udp514)) (mkStub 0 None) 0))))
  = sync.mkMutex false 1 /\
  fst (Handle (mkSyslogHandler 0 erase) (slog.mkRecord 0 "hello")
              (mkWorld (proxy_with [] (Some udp514)) (mkStub 0 None) 0))
  = Panic indexPanic.
Proof.
  split; [|reflexivity].
  apply (Handle_releases_lock (mkSyslogHandler 0 erase) (slog.mkRecord 0 "hello")
           (mkWorld (proxy_with [] (Some udp514)) (mkStub 0 None) 0)); reflexivity.
Defined.

Lemma Handle_drains {H : Type} {DH : slog.Handler H}
        (h : SyslogHandler) (r : slog.Record_) (w : World H) (c : net.Conn)
        (d' : H) (out : list byte) (ls : list (list byte)) (last : list byte) :
  conn (proxy w) = Some c -> healthy c ->
  sync.locked (mu (proxy w)) = false ->
  slog.Handle (downstream w) r = (d', out, None) ->
  buf (proxy w) ++ out = terminated ls ++ last ->
  Forall scannable ls -> scannable last ->
  Forall (fun l => accepts (lineProcessFunc h) (dropCR l)) ls ->
  accepts (lineProcessFunc h) (dropCR last) ->
  exists w' c',
    Handle h r w = (Ret None, w') /\
    buf (proxy w') = [] /\ conn (proxy w') = Some c' /\ healthy c' /\
    net.sent c' = net.sent c ++ records (lineProcessFunc h) (ls ++ [last]) /\
    mu (proxy w') = sync.mkMutex false (S (sync.acquired (mu (proxy w)))) /\
    downstream w' = d' /\ handled w' = S (handled w).
Proof.
  intros Hconn Hc Hfree Hd Hbuf Hscan Hlast Hacc Hacclast.
  unfold Handle, IsConnected. rewrite Hconn. cbn [negb].
  unfold Lock, sync.Lock. rewrite Hfree. cbn [option_map]. rewrite Hd.
  set (px := Writer_Write (set_mu (proxy w) _) out).
  rewrite (ProcessLines_all_ok (lineProcessFunc h) px c ls last Hconn Hbuf
             Hscan Hlast Hacc Hacclast (healthy_ok_for _ c Hc)).
  unfold Unlock, sync.Unlock. cbn.
  eexists. eexists. split; [reflexivity|]. cbn.
  repeat split; try reflexivity; try apply Hc.
  apply Forall_skipn, Hc.
Qed.

(** X9: a record handled on a connected, healthy proxy whose mutex is
    free.  When the downstream handler renders [out] without an error and
    the buffer then holds lines that the scanner and the line function
    take, [Handle] returns nil, every line is on the wire as its record,
    in the order of the buffer, the buffer is empty and the mutex is
    free. *)
Theorem Handle_forwards {H : Type} {DH : slog.Handler H}
        (h : SyslogHandler) (r : slog.Record_) (w : World H) (c : net.Conn)
        (d' : H) (out : list byte) (ls : list (list byte)) (last : list byte) :
  conn (proxy w) = Some c -> healthy c ->
  sync.locked (mu (proxy w)) = false ->
  slog.Handle (downstream w) r = (d', out, None) ->
  buf (proxy w) ++ out = terminated ls ++ last ->
  Forall scannable ls -> scannable last ->
  Forall (fun l => accepts (lineProcessFunc h) (dropCR l)) ls ->
  accepts (lineProcessFunc h) (dropCR last) ->
  exists w' c',
    Handle h r w = (Ret None, w') /\
    buf (proxy w') = [] /\ conn (proxy w') = Some c' /\ healthy c' /\
    net.sent c' = net.sent c ++ records (lineProcessFunc h) (ls ++ [last]) /\
    mu (proxy w') = sync.mkMutex false (S (sync.acquired (mu (proxy w)))) /\
    downstream w' = d' /\ handled w' = S (handled w).
Proof.
  exact (Handle_drains h r w c d' out ls last).
Qed.

Lemma Handle_forwards_witness :
  exists w' c',
    Handle (mkSyslogHandler 0 identity) (slog.mkRecord 0 "hello")
           (mkWorld (proxy_with [] (Some udp514)) (mkStub 0 None) 0) = (Ret None, w') /\
    conn (proxy w') = Some c' /\ net.sent c' = [B "hello"; [NL]].
Proof.
  destruct (Handle_forwards (mkSyslogHandler 0 identity) (slog.mkRecord 0 "hello")
              (mkWorld (proxy_with [] (Some udp514)) (mkStub 0 None) 0) udp514
              (mkStub 0 None) (B "hello" ++ [NL]) [B "hello"] [])
    as (w' & c' & HH & _ & Hc' & _ & Hs & _).
  - reflexivity.
  - close_healthy.
  - reflexivity.
  - reflexivity.
  - reflexivity.
  - constructor; [close_scannable | constructor].
  - close_scannable.
  - constructor; [right; split; [reflexivity | discriminate] | constructor].
  - left. reflexivity.
  - exists w', c'. auto.
Defined.



(** ** What a drain that fails leaves behind *)

(** The first turn of a new scanner reads up to [startBufSize] bytes. *)
Lemma first_turn (b : bytes.Buffer) :
  len b <= startBufSize ->
  exists s', scan_turn NewScanner b = Again s' [].
Proof.
  intros Hlen. unfold scan_turn, NewScanner. cbn.
  unfold fill. cbn. unfold read, grow. cbn.
  change (Z.min 4096 MaxScanTokenSize) with 4096.
  unfold s_end. cbn. unfold bytes.Read.
  destruct b as [|x b].
  - eexists. reflexivity.
  - assert (Hrest : slice_from (x :: b) startBufSize = []).
    { unfold slice_from. apply skipn_all2. unfold len, startBufSize in *. lia. }
    rewrite Hrest.
    destruct (0 <? len (slice_to (x :: b) startBufSize)); eexists; reflexivity.
Qed.

Lemma loop_takes_all (f : lineFunc) (fuel : nat) (b : bytes.Buffer) (c : net.Conn) :
  len b <= startBufSize ->
  snd (fst (ProcessLines_loop (S fuel) f NewScanner b c)) = [].
Proof.
  intros Hlen. destruct (first_turn b Hlen) as (s1 & Hturn).
  cbn [ProcessLines_loop].
  pose proof (Scan_total NewScanner b) as Htot.
  destruct (Scan NewScanner b) as [[[found sc'] b']|] eqn:HS; [|congruence].
  assert (Hb' : b' = []).
  { unfold Scan in HS.
    change (Scan_loop (S (S (List.length b))) NewScanner b)
      with (match scan_turn NewScanner b with
            | Done found s' r' => Some (found, s', r')
            | Again s' r' => Scan_loop (S (List.length b)) s' r'
            end) in HS.
    rewrite Hturn in HS.
    destruct (Scan_loop_takes _ _ _ _ _ _ HS) as (taken & Ht).
    symmetry in Ht. apply app_eq_nil in Ht. apply Ht. }
  subst b'.
  destruct found.
  - destruct (process_line f (token sc') c) as [c'|res c']; [|reflexivity].
    destruct (proj1 (loop_frame f fuel sc' [] c')) as (taken & Ht).
    symmetry in Ht. apply app_eq_nil in Ht. apply Ht.
  - destruct (Err sc'); reflexivity.
Qed.

(** X11: a drain that gets as far as the scanner takes the whole buffer,
    when it holds no more than the 4096 bytes of the scanner's first
    read, and gives nothing back: whether [ProcessLines] returns nil, an
    error of the line function or of a write, or panics, the buffer is
    empty afterwards.  The lines behind the one that failed are not kept
    for a later call: the next drain has nothing to send. *)
Theorem ProcessLines_keeps_nothing (f g : lineFunc) (s : SyslogProxy) (c : net.Conn) :
  conn s = Some c -> net.SetWriteDeadline c = None ->
  len (buf s) <= startBufSize ->
  buf (snd (ProcessLines f s)) = [] /\
  exists c',
    conn (snd (ProcessLines f s)) = Some c' /\
    ProcessLines g (snd (ProcessLines f s)) = (Ret None, snd (ProcessLines f s)).
Proof.
  intros Hconn Hdl Hlen.
  assert (Hopen : net.closed c = false /\ net.deadline_err c = None).
  { unfold net.SetWriteDeadline in Hdl. destruct (net.closed c); [discriminate|]. auto. }
  destruct Hopen as [Hopen Hdl0].
  pose proof (loop_takes_all f (List.length (buf s)) (buf s) c Hlen) as Hb.
  pose proof (proj2 (loop_frame f (S (List.length (buf s))) NewScanner (buf s) c)) as Hc.
  rewrite (ProcessLines_open f s c Hconn Hopen Hdl0).
  destruct (ProcessLines_loop (S (List.length (buf s))) f NewScanner (buf s) c)
    as [[res b'] c'].
  cbn [fst snd] in *. subst b'.
  split; [reflexivity|]. exists c'. split; [reflexivity|].
  destruct Hc as (_ & _ & Hcl & Hd & _).
  rewrite (ProcessLines_open g (set_conn (set_buf s []) (Some c')) c' eq_refl);
    [| congruence | congruence].
  cbn. destruct s; reflexivity.
Qed.

Lemma ProcessLines_keeps_nothing_witness :
  fst (ProcessLines fails_on_bb
         (proxy_with (B "a" ++ [NL] ++ B "bb" ++ [NL] ++ B "c" ++ [NL]) (Some udp514)))
  = Ret (Some (Foreign "boom")) /\
  buf (snd (ProcessLines fails_on_bb
              (proxy_with (B "a" ++ [NL] ++ B "bb" ++ [NL] ++ B "c" ++ [NL]) (Some udp514))))
  = [].
Proof.
  split; [reflexivity|].
  apply (ProcessLines_keeps_nothing fails_on_bb identity
           (proxy_with (B "a" ++ [NL] ++ B "bb" ++ [NL] ++ B "c" ++ [NL]) (Some udp514))
           udp514 eq_refl eq_refl).
  vm_compute. discriminate.
Defined.

(** ** Connecting and disconnecting *)



(** X13: [Disconnect] closes the connection that is installed and takes
    it out of the proxy, and touches nothing else: the bytes in the
    buffer stay.  A second [Disconnect] does nothing, and until the next
    [Connect] a drain and [Handle] return the connection error without
    taking a byte from the buffer or calling the downstream handler. *)
Theorem Disconnect_then {H : Type} {DH : slog.Handler H}
        (s : SyslogProxy) (f : lineFunc) (h : SyslogHandler) (r : slog.Record_)
        (d : H) (n : nat) :
  snd (Disconnect s) = option_map net.Close (conn s) /\
  conn (fst (Disconnect s)) = None /\
  buf (fst (Disconnect s)) = buf s /\
  same_settings s (fst (Disconnect s)) /\
  Disconnect (fst (Disconnect s)) = (fst (Disconnect s), None) /\
  ProcessLines f (fst (Disconnect s)) = (Ret (Some errNotConnected), fst (Disconnect s)) /\
  Handle h r (mkWorld (fst (Disconnect s)) d n)
  = (Ret (Some errNotConnected), mkWorld (fst (Disconnect s)) d n).
Proof.
  unfold Disconnect, same_settings.
  destruct (conn s) as [c|] eqn:Ec; cbn [fst snd option_map conn set_conn buf];
    repeat (split; [try reflexivity|]);
    unfold Handle, ProcessLines, IsConnected; cbn [proxy conn set_conn];
    try rewrite Ec; try reflexivity.
  all: repeat split; try reflexivity.
Qed.

(** ** The constructor of the proxy *)



(** X15: the proxy that [NewSyslogProxy] returns is not connected and
    has no destination, its buffer is empty, its mutex free and never
    taken, the line buffer has the size asked for and holds zeroes, and
    the priority is a valid one, between 0 and [LOG_LOCAL7|LOG_DEBUG];
    a drain on it returns the connection error. *)
Theorem NewSyslogProxy_fresh (Ext : Externals) (opts : option SyslogProxyOptions)
        (s : SyslogProxy) (f : lineFunc) :
  NewSyslogProxy opts = Ret s ->
  buf s = [] /\ conn s = None /\ url s = "" /\ timeout s = 0 /\
  mu s = sync.mkMutex false 0 /\
  useLocalTZ s = UseLocalTZ (options_of opts) /\
  lineProcessBuf s = repeat x00 (Z.to_nat (line_size (options_of opts))) /\
  len (lineProcessBuf s) = line_size (options_of opts) /\
  0 <= priority s <= Z.lor logSyslog.LOG_LOCAL7 logSyslog.LOG_DEBUG /\
  ProcessLines f s = (Ret (Some errNotConnected), s).
Proof.
  unfold NewSyslogProxy. fold (options_of opts).
  fold (line_size (options_of opts)).
  set (o := options_of opts).
  destruct (if String.eqb (Tag o) "" then nth_error os_Args 0 else Some (Tag o))
    as [tag0|]; [|discriminate].
  match goal with |- context [if ?b then Panic "runtime error: makeslice: cap out of range" else _] =>
    destruct b; [discriminate|] end.
  destruct (line_size o <? 0) eqn:Eline; [discriminate|].
  apply Z.ltb_ge in Eline.
  intros HS. injection HS as <-.
  cbn [buf conn url timeout mu useLocalTZ lineProcessBuf priority].
  repeat (split; [reflexivity|]).
  split; [unfold len; rewrite repeat_length; lia|].
  split; [|reflexivity].
  change (Z.lor logSyslog.LOG_LOCAL7 logSyslog.LOG_DEBUG) with 191.
  change (Z.lor logSyslog.LOG_INFO logSyslog.LOG_USER) with 14.
  destruct (Priority o <? 0) eqn:E1; cbn [orb]; [lia|].
  destruct (191 <? Priority o) eqn:E2; [lia|].
  apply Z.ltb_ge in E1, E2. lia.
Qed.

Lemma NewSyslogProxy_fresh_witness :
  exists s,
    @NewSyslogProxy online (Some (mkSyslogProxyOptions true 500 "" 0 16)) = Ret s /\
    priority s = 14 /\ len (lineProcessBuf s) = 16 /\ conn s = None.
Proof.
  eexists. split; [reflexivity|].
  destruct (NewSyslogProxy_fresh online (Some (mkSyslogProxyOptions true 500 "" 0 16))
              _ identity eq_refl) as (_ & Hc & _ & _ & _ & _ & _ & Hl & _).
  split; [reflexivity|]. split; [exact Hl | exact Hc].
Defined.

(** ** The derived handlers *)

Lemma store_last {H : Type} (heap : Heap H) (x y : SyslogHandlerObject H) :
  store (heap ++ [x]) (List.length heap) y = heap ++ [y].
Proof.
  induction heap as [|z heap IH]; [reflexivity|].
  cbn. rewrite IH. reflexivity.
Qed.

Lemma nth_error_last {A : Type} (l : list A) (x : A) :
  nth_error (l ++ [x]) (List.length l) = Some x.
Proof.
  rewrite nth_error_app2 by lia. rewrite Nat.sub_diag. reflexivity.
Qed.

Lemma nth_error_old {A : Type} (l ext : list A) (n : nat) (x : A) :
  nth_error l n = Some x -> nth_error (l ++ ext) n = Some x.
Proof.
  intros Hn. rewrite nth_error_app1; [exact Hn|].
  apply nth_error_Some. congruence.
Qed.

Lemma fields_eta (h : SyslogHandler) :
  mkSyslogHandler (level h) (lineProcessFunc h) = h.
Proof. destruct h; reflexivity. Qed.

Lemma WithAttrs_spec {H Attr : Type} {DV : Deriving H Attr}
      (heap : Heap H) (h : nat) (o : SyslogHandlerObject H) (aa : list Attr) :
  nth_error heap h = Some o ->
  WithAttrs heap h aa
  = Some (heap ++ [mkObject (syslogPx o) (downstream_WithAttrs (handler o) aa) (fields o)],
          List.length heap).
Proof.
  intros Hh. unfold WithAttrs, Copy. rewrite Hh.
  rewrite nth_error_last, (nth_error_old heap _ h o Hh).
  cbn [syslogPx fields]. rewrite store_last, fields_eta. reflexivity.
Qed.

Lemma WithGroup_spec {H Attr : Type} {DV : Deriving H Attr}
      (heap : Heap H) (h : nat) (o : SyslogHandlerObject H) (name : string) :
  nth_error heap h = Some o -> name <> "" ->
  WithGroup (Attr := Attr) heap h name
  = Some (heap ++ [mkObject (syslogPx o) (downstream_WithGroup (Attr := Attr) (handler o) name)
                            (fields o)],
          List.length heap).
Proof.
  intros Hh Hname. unfold WithGroup, Copy.
  apply String.eqb_neq in Hname. rewrite Hname. cbn [negb]. rewrite Hh.
  rewrite nth_error_last, (nth_error_old heap _ h o Hh).
  cbn [syslogPx fields]. rewrite store_last, fields_eta. reflexivity.
Qed.

(** X16: a chain of [WithAttrs] and [WithGroup] calls on a handler only
    adds objects: the receiver and every handler made before are as they
    were.  The handler at the end of the chain points to the same proxy
    and has the level and the line function of the first one; its
    downstream handler is the first one's taken through the same chain,
    the empty group names left out.  Each call but [WithGroup("")] makes
    one new object; a chain of [WithGroup("")] alone hands back the
    receiver itself. *)
Theorem derive_chain {H Attr : Type} {DV : Deriving H Attr}
        (ops : list (derivation (Attr := Attr))) (heap : Heap H) (h : nat)
        (o : SyslogHandlerObject H) :
  nth_error heap h = Some o ->
  exists ext h',
    derive heap h ops = Some (heap ++ ext, h') /\
    List.length ext = List.length (filter (fun op => negb (empty_group op)) ops) /\
    nth_error (heap ++ ext) h'
    = Some (mkObject (syslogPx o) (fold_left downstream_step ops (handler o)) (fields o)) /\
    (forall p x, nth_error heap p = Some x -> nth_error (heap ++ ext) p = Some x) /\
    (forallb empty_group ops = true -> h' = h) /\
    (forallb empty_group ops = false -> (List.length heap <= h')%nat).
Proof.
  revert heap h o.
  induction ops as [|op ops IH]; intros heap h o Hh.
  - exists [], h. rewrite app_nil_r. cbn.
    split; [reflexivity|]. split; [reflexivity|]. split; [destruct o; exact Hh|].
    split; [auto|]. split; [reflexivity | discriminate].
  - assert (Hstep :
      exists ext1 h1,
        (match op with
         | ByAttrs aa => WithAttrs heap h aa
         | ByGroup name => WithGroup (Attr := Attr) heap h name
         end) = Some (heap ++ ext1, h1) /\
        List.length ext1 = (if empty_group op then 0 else 1)%nat /\
        nth_error (heap ++ ext1) h1
        = Some (mkObject (syslogPx o) (downstream_step (handler o) op) (fields o)) /\
        (if empty_group op then h1 = h else h1 = List.length heap)).
    { destruct op as [aa|name]; cbn [empty_group downstream_step].
      - eexists. eexists. split; [apply (WithAttrs_spec heap h o aa Hh)|].
        split; [reflexivity|]. split; [apply nth_error_last | reflexivity].
      - destruct (String.eqb name "") eqn:En.
        + exists [], h. unfold WithGroup. rewrite En. cbn [negb].
          rewrite app_nil_r. destruct o. auto.
        + apply String.eqb_neq in En.
          eexists. eexists. split; [apply (WithGroup_spec heap h o name Hh En)|].
          split; [reflexivity|]. split; [apply nth_error_last | reflexivity]. }
    destruct Hstep as (ext1 & h1 & Hop & Hlen1 & Hh1 & Haddr).
    destruct (IH (heap ++ ext1) h1 _ Hh1) as (ext & h' & Hd & Hlen & Hobj & Hold & Hsame & Hnew).
    exists (ext1 ++ ext), h'. cbn [derive]. rewrite Hop.
    rewrite app_assoc. split; [exact Hd|].
    cbn [syslogPx handler fields] in Hobj.
    split; [|split; [exact Hobj|split; [|split]]].
    + rewrite length_app, Hlen1, Hlen. cbn [filter].
      destruct (empty_group op); reflexivity.
    + intros p x Hp. apply Hold. apply nth_error_old. exact Hp.
    + cbn [forallb]. intros Hall. apply andb_prop in Hall. destruct Hall as [He Hall].
      rewrite He in Haddr. rewrite (Hsame Hall). exact Haddr.
    + cbn [forallb]. intros Hall.
      destruct (forallb empty_group ops) eqn:Erest.
      * rewrite (Hsame eq_refl).
        destruct (empty_group op); [discriminate|]. rewrite Haddr. lia.
      * specialize (Hnew eq_refl). rewrite length_app in Hnew. lia.
Qed.

Lemma derive_chain_witness :
  exists ext h',
    derive [mkObject 0 ([] : list string) (mkSyslogHandler 4 identity)] 0
           [ByAttrs ["k=v"]; ByGroup ""; ByGroup "g"]
    = Some ([mkObject 0 ([] : list string) (mkSyslogHandler 4 identity)] ++ ext, h') /\
    nth_error ([mkObject 0 ([] : list string) (mkSyslogHandler 4 identity)] ++ ext) h'
    = Some (mkObject 0 ["k=v"; "g"] (mkSyslogHandler 4 identity)) /\
    List.length ext = 2%nat.
Proof.
  destruct (derive_chain [ByAttrs ["k=v"]; ByGroup ""; ByGroup "g"]
              [mkObject 0 ([] : list string) (mkSyslogHandler 4 identity)] 0
              (mkObject 0 ([] : list string) (mkSyslogHandler 4 identity)) eq_refl)
    as (ext & h' & Hd & Hlen & Hobj & _).
  exists ext, h'. split; [exact Hd|]. split; [exact Hobj | exact Hlen].
Defined.

(** ** The errors of [Handle] *)

(** X17: an error returned by [Handle] wraps [ErrSyslogHandle], when it
    comes from the downstream handler, or is an error of the drain:
    one that wraps [ErrSyslogConnection], [ErrSyslogWrite] or
    [ErrSyslogProcessHandleResult], or one that the line function gave
    for a line.  For a handler that [NewSyslogHandler] made without a
    line function of the caller, every error of [Handle] wraps one of
    the four errors of the package. *)
Theorem Handle_errors (Ext : Externals) {H : Type} {DH : slog.Handler H}
        (h : SyslogHandler) (r : slog.Record_) (w : World H) (e : error) :
  fst (Handle h r w) = Ret (Some e) ->
  (errors_Is e ErrSyslogHandle = true \/ drain_error e = true \/
   exists t, t <> [] /\ snd (lineProcessFunc h t) = Some e) /\
  (forall (w0 : World H) (opts : option SyslogHandlerOptions),
      opts = None \/ opts = Some (mkSyslogHandlerOptions None) ->
      h = NewSyslogHandler w0 opts ->
      errors_Is e ErrSyslogHandle = true \/ drain_error e = true).
Proof.
  intros He.
  assert (Hcases : errors_Is e ErrSyslogHandle = true \/ drain_error e = true \/
                   exists t, t <> [] /\ snd (lineProcessFunc h t) = Some e).
  { unfold Handle in He.
    destruct (negb (IsConnected (proxy w))).
    { injection He as <-. right. left. reflexivity. }
    destruct (Lock (proxy w)) as [px|]; [|discriminate].
    destruct (slog.Handle (downstream w) r) as [[d' out] [e0|]].
    - destruct (Unlock (Writer_Write px out)); [|discriminate].
      injection He as <-. left. simpl. reflexivity.
    - pose proof (drain_error_cases (lineProcessFunc h) (Writer_Write px out) e) as Hd.
      destruct (ProcessLines (lineProcessFunc h) (Writer_Write px out)) as [res px'].
      destruct (Unlock px'); [|discriminate].
      right. apply Hd. exact He. }
  split; [exact Hcases|].
  intros w0 opts Hopts ->.
  destruct Hcases as [Hh|[Hd|(t & _ & Ht)]]; [left; exact Hh | right; exact Hd |].
  destruct Hopts as [->| ->]; discriminate.
Qed.

Lemma Handle_errors_witness :
  errors_Is (wrap ErrSyslogHandle (Foreign "disk")) ErrSyslogHandle = true \/
  drain_error (wrap ErrSyslogHandle (Foreign "disk")) = true.
Proof.
  refine (proj2 (Handle_errors online (H := Stub) (DH := Stub_Handler)
                   (@NewSyslogHandler online Stub _
                      (mkWorld (proxy_with [] None) (mkStub 0 None) 0) None)
                   (slog.mkRecord 0 "one")
                   (mkWorld (proxy_with [] (Some udp514)) (mkStub 0 (Some (Foreign "disk"))) 0)
                   (wrap ErrSyslogHandle (Foreign "disk")) _)
                (mkWorld (proxy_with [] None) (mkStub 0 None) 0) None _ _).
  - reflexivity.
  - left. reflexivity.
  - reflexivity.
Defined.
